(** * Gold transfer between characters: a shallow embedding

    Source files: [Steamliteapp.py] and [Steamlite_allapp.py] (two Streamlit
    front ends over the same MySQL schema), [Config.py].

    The Python code talks to MySQL through [mysql.connector].  The embedding
    keeps the shape of the code: a world made of the database, the connection
    object that [get_connection] hands out, and a log of the statements the
    server ran; every library call is a computation in a state-and-exception
    monad, and [try/except/finally] are combinators of that monad. *)

From Stdlib Require Import ZArith Ascii String List Lia OrderedTypeEx DecimalString DecimalPos DecimalZ.
From stdpp Require Import base option gmap strings list sorting.

Local Open Scope string_scope.
Local Open Scope list_scope.
Local Open Scope Z_scope.

(** ** The schema, as far as the source names it *)

(** Columns of [Creatures] written by [insert_row_generic]. *)
Record Creature := mkCreature {
  creature_type : string;
  creature_name : string;
  hit_points : Z;
  armor_class : Z;
  speed : Z;
  creature_size : string;
  level : Z;
  is_homebrew : bool
}.

(** Columns of [Characters] written by [insert_row_generic]; the key
    [character_id] is the primary key (comment at the head of both
    applications), so the table is a map from it.  [gold] is a plain
    [INTEGER] column: the model puts no range and no CHECK constraint on it,
    the schema script not being part of the sources. *)
Record Character := mkCharacter {
  race_id : Z;
  class_id : Z;
  gold : Z
}.

(** [Races] and [Classes] map an id to a name.  [other_tables] stands for
    the tables the applications only delete from ([Character_Classes],
    [Character_Spells], [Character_Combats], [Inventory]): by table name,
    their rows, the cells left as text. *)
Record Database := mkDatabase {
  Creatures : gmap Z Creature;
  Characters : gmap Z Character;
  Races : gmap Z string;
  Classes : gmap Z string;
  other_tables : gmap string (list (list string))
}.

Definition with_Characters (rows : gmap Z Character) (d : Database) : Database :=
  {| Creatures := Creatures d; Characters := rows;
     Races := Races d; Classes := Classes d; other_tables := other_tables d |}.

Definition add_gold (delta : Z) (r : Character) : Character :=
  {| race_id := race_id r; class_id := class_id r; gold := gold r + delta |}.

(** The balance of a character, [None] when the row does not exist. *)
Definition gold_of (d : Database) (character_id : Z) : option Z :=
  gold <$> Characters d !! character_id.

(** ** The world *)

(** What the server was asked to do, in order. *)
Inductive Event :=
| StartTransaction
| SelectGoldForUpdate (table : string) (character_id : Z)
| UpdateGold (table : string) (delta : Z) (character_id : Z)
| Commit
| Rollback
| Close.

(** [db] is the committed content; [txn] the uncommitted working copy of the
    transaction open on the connection, if any.  [connection] is the object
    [get_connection] returns: the function is decorated with
    [st.cache_resource], so its body runs once and every later call gets the
    same object back; [None] is Python's [None], [Some b] a connection whose
    [is_connected()] is [b].  [faults] is the script of transient errors
    (lock wait timeout, deadlock victim) the server will answer to the next
    statements sent through [cursor.execute]: [Some msg] makes the statement
    fail, [None] lets it run, and past the end of the list every statement
    runs. *)
Record World := mkWorld {
  db : Database;
  txn : option Database;
  connection : option bool;
  faults : list (option string);
  log : list Event
}.

Definition set_db (d : Database) (w : World) : World :=
  mkWorld d (txn w) (connection w) (faults w) (log w).
Definition set_txn (t : option Database) (w : World) : World :=
  mkWorld (db w) t (connection w) (faults w) (log w).
Definition set_connection (c : option bool) (w : World) : World :=
  mkWorld (db w) (txn w) c (faults w) (log w).
Definition set_faults (f : list (option string)) (w : World) : World :=
  mkWorld (db w) (txn w) (connection w) f (log w).
Definition record (e : Event) (w : World) : World :=
  mkWorld (db w) (txn w) (connection w) (faults w) (log w ++ [e]).

(** What a statement sees: the working copy inside a transaction. *)
Definition current (w : World) : Database := default (db w) (txn w).

(** ** Exceptions and the monad *)

Inductive Exception :=
| ValueError (msg : string)
| MySQLError (msg : string).      (* mysql.connector.Error and its subclasses *)

(** [str(e)], as used by the f-string of the handler. *)
Definition str (e : Exception) : string :=
  match e with ValueError m => m | MySQLError m => m end.

Inductive Result (A : Type) :=
| Returned (a : A)
| Raised (e : Exception).
Arguments Returned {A} a.
Arguments Raised {A} e.

Definition M (A : Type) : Type := World -> Result A * World.

Definition ret {A} (a : A) : M A := fun w => (Returned a, w).
Definition raise {A} (e : Exception) : M A := fun w => (Raised e, w).
Definition bind {A B} (m : M A) (k : A -> M B) : M B :=
  fun w => match m w with
           | (Returned a, w') => k a w'
           | (Raised e, w') => (Raised e, w')
           end.

Notation "'do' x <- m ; k" := (bind m (fun x => k))
  (at level 10, x name, m at level 99, k at level 200).
Notation "'run' m ; k" := (bind m (fun _ => k))
  (at level 10, m at level 99, k at level 200).

(** [try: body except Exception as e: handler e] *)
Definition try_except {A} (body : M A) (handler : Exception -> M A) : M A :=
  fun w => match body w with
           | (Returned a, w') => (Returned a, w')
           | (Raised e, w') => handler e w'
           end.

(** [try: body finally: cleanup]: the cleanup runs on every exit, and an
    exception of its own replaces the outcome of the body. *)
Definition try_finally {A} (body : M A) (cleanup : M unit) : M A :=
  fun w => match body w with
           | (r, w') => match cleanup w' with
                        | (Returned _, w'') => (r, w'')
                        | (Raised e, w'') => (Raised e, w'')
                        end
           end.

(** ** mysql.connector *)

Definition not_available : Exception :=
  MySQLError "MySQL Connection not available.".

(** [get_connection()]: the cached object. *)
Definition get_connection : M (option bool) :=
  fun w => (Returned (connection w), w).

(** [conn.cursor()]: on a connection that has been closed the library raises
    [OperationalError("MySQL Connection not available.")]; it does not
    reconnect by itself. *)
Definition conn_cursor : M unit :=
  fun w => match connection w with
           | Some true => (Returned tt, w)
           | _ => (Raised not_available, w)
           end.

(** [conn.is_connected()] inside [if conn and conn.is_connected()]. *)
Definition conn_is_connected : M bool :=
  fun w => (Returned (match connection w with Some b => b | None => false end), w).

(** [conn.start_transaction()] *)
Definition conn_start_transaction : M unit :=
  fun w => match connection w with
           | Some true =>
               match txn w with
               | None => (Returned tt, record StartTransaction (set_txn (Some (db w)) w))
               | Some _ => (Raised (MySQLError "Transaction already in progress"), w)
               end
           | _ => (Raised not_available, w)
           end.

(** [conn.commit()] *)
Definition conn_commit : M unit :=
  fun w => match connection w with
           | Some true => (Returned tt, record Commit (set_txn None (set_db (current w) w)))
           | _ => (Raised not_available, w)
           end.

(** [conn.rollback()] *)
Definition conn_rollback : M unit :=
  fun w => match connection w with
           | Some true => (Returned tt, record Rollback (set_txn None w))
           | _ => (Raised not_available, w)
           end.

(** [cursor.close(); conn.close()]: the server drops what was not committed
    and the object stays in the cache, disconnected. *)
Definition conn_close : M unit :=
  fun w => (Returned tt, record Close (set_connection (Some false) (set_txn None w))).

(** [cursor.execute(stmt, params)]: the next entry of the fault script
    decides whether the server runs the statement. *)
Definition cursor_execute {A} (e : Event) (stmt : World -> Result A * World) : M A :=
  fun w => match connection w with
           | Some true =>
               match faults w with
               | Some err :: rest => (Raised (MySQLError err), set_faults rest w)
               | None :: rest => stmt (record e (set_faults rest w))
               | [] => stmt (record e w)
               end
           | _ => (Raised not_available, w)
           end.

(** The rows a statement over [table] with the columns [character_id] and
    [gold] ranges over: only [Characters] has them. *)
Definition characters_table (table : string) (d : Database) : option (gmap Z Character) :=
  if String.eqb table "Characters" then Some (Characters d) else None.

Definition no_such_table (table : string) : Exception :=
  MySQLError ("Table or column of '" +:+ table +:+ "' doesn't exist").

(** [SELECT gold FROM {table} WHERE character_id = %s FOR UPDATE]: the result
    set, one row at most, each row its [gold] column. *)
Definition select_gold_for_update (table : string) (character_id : Z) : M (list Z) :=
  cursor_execute (SelectGoldForUpdate table character_id)
    (fun w => match characters_table table (current w) with
              | Some rows => (Returned (option_list (gold <$> rows !! character_id)), w)
              | None => (Raised (no_such_table table), w)
              end).

(** [cursor.fetchone()] *)
Definition fetchone (rows : list Z) : option Z := head rows.

(** [UPDATE {table} SET gold = gold + %s WHERE character_id = %s] with
    [delta] for the first parameter; the sender's [gold = gold - %s] is the
    same statement with [delta = - amount].  A key without a row updates
    nothing. *)
Definition update_gold (table : string) (delta : Z) (character_id : Z) : M unit :=
  cursor_execute (UpdateGold table delta character_id)
    (fun w => match characters_table table (current w) with
              | Some rows =>
                  (Returned tt,
                   set_txn (Some (with_Characters (alter (add_gold delta) character_id rows)
                                                   (current w))) w)
              | None => (Raised (no_such_table table), w)
              end).

(** ** The applications *)

Module Steamliteapp.

Definition TARGET_TABLE_NAME : string := "Characters".

(** [transfer_gold], lines 249-291. *)
Definition transfer_gold (from_id to_id amount : Z) : M (bool * string) :=
  do conn <- get_connection;
  match conn with
  | None => ret (false, "Database connection failed.")
  | Some _ =>
    run conn_cursor;
    try_finally
      (try_except
         (run conn_start_transaction;
          do from_rows <- select_gold_for_update TARGET_TABLE_NAME from_id;
          let from_gold_data := fetchone from_rows in
          do to_rows <- select_gold_for_update TARGET_TABLE_NAME to_id;
          let to_gold_data := fetchone to_rows in
          match from_gold_data, to_gold_data with
          | Some from_gold, Some to_gold =>
              if from_gold <? amount
              then raise (ValueError "Insufficient gold to transfer.")
              else
                run update_gold TARGET_TABLE_NAME (- amount) from_id;
                run update_gold TARGET_TABLE_NAME amount to_id;
                run conn_commit;
                ret (true, "Gold transfer successful!")
          | _, _ => raise (ValueError "One of the selected characters does not exist.")
          end)
         (fun e =>
            run conn_rollback;
            ret (false, "Gold transfer failed: " +:+ str e)))
      (do connected <- conn_is_connected;
       if connected then conn_close else ret tt)
  end.

End Steamliteapp.

Module Steamlite_allapp.

Definition TABLE_NAME : string := "Characters".

(** [transfer_gold], lines 246-288. *)
Definition transfer_gold (from_id to_id amount : Z) : M (bool * string) :=
  do conn <- get_connection;
  match conn with
  | None => ret (false, "Database connection failed.")
  | Some _ =>
    run conn_cursor;
    try_finally
      (try_except
         (run conn_start_transaction;
          do from_rows <- select_gold_for_update TABLE_NAME from_id;
          let from_gold_data := fetchone from_rows in
          do to_rows <- select_gold_for_update TABLE_NAME to_id;
          let to_gold_data := fetchone to_rows in
          match from_gold_data, to_gold_data with
          | Some from_gold, Some to_gold =>
              if from_gold <? amount
              then raise (ValueError "Insufficient gold to transfer!")
              else
                run update_gold TABLE_NAME (- amount) from_id;
                run update_gold TABLE_NAME amount to_id;
                run conn_commit;
                ret (true, "Gold transfer successful!")
          | _, _ => raise (ValueError "One of the selected characters does not exist.")
          end)
         (fun e =>
            run conn_rollback;
            ret (false, "Gold transfer failed: " +:+ str e)))
      (do connected <- conn_is_connected;
       if connected then conn_close else ret tt)
  end.

End Steamlite_allapp.

(** The two applications. *)
Inductive App := Steamliteapp_py | Steamlite_allapp_py.

Definition transfer_gold (app : App) : Z -> Z -> Z -> M (bool * string) :=
  match app with
  | Steamliteapp_py => Steamliteapp.transfer_gold
  | Steamlite_allapp_py => Steamlite_allapp.transfer_gold
  end.

(** The message of the insufficient-balance [ValueError]: the one literal in
    which the two functions differ. *)
Definition insufficient_gold (app : App) : string :=
  match app with
  | Steamliteapp_py => "Insufficient gold to transfer."
  | Steamlite_allapp_py => "Insufficient gold to transfer!"
  end.

(** ** The "Transfer Gold" button *)

(** [st.error], [st.success], [st.warning] *)
Inductive Feedback :=
| st_error (msg : string)
| st_success (msg : string)
| st_warning (msg : string).

(** Truth value of an id read with [name_id_map.get]: [None] and [0] are
    false. *)
Definition truthy_id (id : option Z) : bool :=
  match id with Some n => negb (n =? 0) | None => false end.

(** The body of [if st.button("Transfer Gold"):], the only caller of
    [transfer_gold] (lines 450-461, resp. 405-416); the same text in both
    applications.  [st.rerun()] after the call is left out. *)
Definition transfer_gold_button (app : App) (from_id to_id : option Z) (amount : Z)
  : M Feedback :=
  if bool_decide (from_id = to_id)
  then ret (st_error "Cannot transfer gold to the same character!")
  else
    match from_id, to_id with
    | Some f, Some t =>
        if truthy_id from_id && truthy_id to_id && negb (amount =? 0)
        then
          do r <- transfer_gold app f t amount;
          let '(success, msg) := r in
          if success then ret (st_success msg) else ret (st_error msg)
        else ret (st_warning "Please select both characters and a valid amount.")
    | _, _ => ret (st_warning "Please select both characters and a valid amount.")
    end.

(** ** Reading a call off the world *)

(** The statements a call added to the log. *)
Definition events_of (before after : World) : list Event :=
  drop (length (log before)) (log after).

(** The rows on which a [SELECT ... FOR UPDATE] took its lock, in order. *)
Fixpoint locks (evs : list Event) : list Z :=
  match evs with
  | [] => []
  | SelectGoldForUpdate _ id :: rest => id :: locks rest
  | _ :: rest => locks rest
  end.

(** The rows an [UPDATE] was run on, in order. *)
Fixpoint updates (evs : list Event) : list Z :=
  match evs with
  | [] => []
  | UpdateGold _ _ id :: rest => id :: updates rest
  | _ :: rest => updates rest
  end.

(** A world in which a call can go through: a connected connection with no
    transaction open, and a server that reports no transient error. *)
Definition ready (w : World) : Prop :=
  connection w = Some true /\ txn w = None /\ faults w = [].

(** Every balance is non-negative. *)
Definition balances_nonneg (d : Database) : Prop :=
  forall id g, gold_of d id = Some g -> 0 <= g.

(** ** A sample database *)

Definition human_fighter (g : Z) : Character :=
  {| race_id := 1; class_id := 1; gold := g |}.

(** Character 1 holds 100 gold, character 2 holds 50. *)
Definition bank : Database :=
  {| Creatures := ∅;
     Characters := <[1 := human_fighter 100]> (<[2 := human_fighter 50]> ∅);
     Races := ∅; Classes := ∅; other_tables := ∅ |}.

(** A freshly connected process on [d]. *)
Definition fresh (d : Database) : World :=
  {| db := d; txn := None; connection := Some true; faults := []; log := [] |}.


(** The world a call leaves behind when it started from a ready one: the
    database [d'], the connection closed, the statements [evs] added. *)
Definition after_call (w : World) (d' : Database) (evs : list Event) : World :=
  {| db := d'; txn := None; connection := Some false; faults := [];
     log := log w ++ evs |}.

(** The [Characters] table after [amount] went from [from_id] to [to_id]. *)
Definition transferred (from_id to_id amount : Z) (d : Database) : Database :=
  with_Characters
    (alter (add_gold amount) to_id
       (alter (add_gold (- amount)) from_id (Characters d))) d.

(** The flag of a call that returned, the exception of one that raised. *)
Definition same_outcome (r1 r2 : Result (bool * string)) : Prop :=
  match r1, r2 with
  | Returned (ok1, _), Returned (ok2, _) => ok1 = ok2
  | Raised e1, Raised e2 => e1 = e2
  | _, _ => False
  end.

(** The sum of the balances of two characters, when both rows exist. *)
Definition balance_sum (d : Database) (a b : Z) : option Z :=
  match gold_of d a, gold_of d b with
  | Some ga, Some gb => Some (ga + gb)
  | _, _ => None
  end.

(** Ids in ascending order. *)
Fixpoint ascending (ids : list Z) : bool :=
  match ids with
  | a :: (b :: _) as rest => (a <=? b) && ascending rest
  | _ => true
  end.

(** ** The rest of the data access layer *)

(** What the schema script, which is not part of the sources, fixes: the
    comparison [=] and the order of [ORDER BY] on a text column under its
    collation, and, for a row of one of the tables the applications only
    delete from, the value of its [character_id] (for [Character_Combats] and
    [Inventory]: [creature_id]) column. *)
Record Schema := mkSchema {
  text_eqb : string -> string -> bool;
  text_leb : string -> string -> bool;
  owner : string -> list string -> Z
}.

(** The table constant of an application. *)
Definition table_name (app : App) : string :=
  match app with
  | Steamliteapp_py => Steamliteapp.TARGET_TABLE_NAME
  | Steamlite_allapp_py => Steamlite_allapp.TABLE_NAME
  end.

(** The dict a form hands to [insert_row_generic] and [update_row_generic]:
    the keys of [TARGET_COLUMNS] (resp. [COLUMNS]), a text and an integer,
    each of which may be absent. *)
Record Data := mkData {
  data_creature_name : option string;
  data_gold : option Z
}.

(** Truth value of [data.get("creature_name")]: [None] and [""] are false. *)
Definition truthy_name (name : option string) : bool :=
  match name with Some s => negb (String.eqb s "") | None => false end.

(** A row of the cursor opened with [dictionary=True] by [fetch_all_generic]:
    the keys [id], [creature_name] and [gold]. *)
Record Row := mkRow {
  row_id : Z;
  row_creature_name : string;
  row_gold : Z
}.

Definition with_Creatures (rows : gmap Z Creature) (d : Database) : Database :=
  {| Creatures := rows; Characters := Characters d;
     Races := Races d; Classes := Classes d; other_tables := other_tables d |}.

Definition with_other_tables (t : gmap string (list (list string))) (d : Database)
  : Database :=
  {| Creatures := Creatures d; Characters := Characters d;
     Races := Races d; Classes := Classes d; other_tables := t |}.

Definition set_gold (g : Z) (r : Character) : Character :=
  {| race_id := race_id r; class_id := class_id r; gold := g |}.

Definition set_creature_name (name : string) (c : Creature) : Creature :=
  {| creature_type := creature_type c; creature_name := name;
     hit_points := hit_points c; armor_class := armor_class c; speed := speed c;
     creature_size := creature_size c; level := level c;
     is_homebrew := is_homebrew c |}.

(** [except Error as e: handler e]: an exception of another class goes
    through. *)
Definition try_except_Error {A} (body : M A) (handler : Exception -> M A) : M A :=
  fun w => match body w with
           | (Raised (MySQLError m), w') => handler (MySQLError m) w'
           | other => other
           end.

(** The [finally] of every function of the layer. *)
Definition close_if_connected : M unit :=
  do connected <- conn_is_connected;
  if connected then conn_close else ret tt.

(** [cursor.execute] for the statements of the functions below; as in
    [cursor_execute] the fault script decides whether the server runs the
    statement.  The log keeps the statements of [transfer_gold] and the
    calls on the connection only, these statements are not entered. *)
Definition cursor_execute_sql {A} (stmt : World -> Result A * World) : M A :=
  fun w => match connection w with
           | Some true =>
               match faults w with
               | Some err :: rest => (Raised (MySQLError err), set_faults rest w)
               | None :: rest => stmt (set_faults rest w)
               | [] => stmt w
               end
           | _ => (Raised not_available, w)
           end.

(** [cursor.execute] while the result of the [SELECT] executed before it on
    the same connection has not been fetched: the library refuses with
    [InternalError("Unread result found")] and sends nothing. *)
Definition cursor_execute_unread {A} : M A :=
  fun w => match connection w with
           | Some true => (Raised (MySQLError "Unread result found"), w)
           | _ => (Raised not_available, w)
           end.

(** [cursor.rowcount] of the cursors used here (not buffered) after a
    [SELECT] has been executed and before a row is fetched: the number of
    rows is not known yet (-1; the C extension gives 0). *)
Definition rowcount_unfetched : Z := -1.

(** A statement executed after a [SELECT] whose result was fetched or not. *)
Definition after_select {A} (fetched : bool) (stmt : M A) : M A :=
  if fetched then stmt else cursor_execute_unread.

(** *** Statements *)

(** The order of two rows by [creature_name]. *)
Definition name_le (srv : Schema) (a b : Row) : Prop :=
  Is_true (text_leb srv (row_creature_name a) (row_creature_name b)).

(** [ORDER BY C.creature_name] *)
Definition order_by_name (srv : Schema) (l : list Row) : list Row :=
  merge_sort (name_le srv) l.

(** [Creatures AS C JOIN {table} AS T ON C.creature_id = T.character_id
    WHERE C.creature_type = 'Character'], with the three selected columns. *)
Definition joined_rows (srv : Schema) (creatures : gmap Z Creature)
    (characters : gmap Z Character) : list Row :=
  omap (fun '(cid, c) =>
          if text_eqb srv (creature_type c) "Character"
          then (fun t => mkRow cid (creature_name c) (gold t)) <$> characters !! cid
          else None)
       (map_to_list creatures).

(** The [SELECT ... ORDER BY C.creature_name] of [fetch_all_generic]. *)
Definition select_characters (srv : Schema) (table : string) : M (list Row) :=
  cursor_execute_sql
    (fun w => match characters_table table (current w) with
              | Some rows =>
                  (Returned
                     (order_by_name srv (joined_rows srv (Creatures (current w)) rows)),
                   w)
              | None => (Raised (no_such_table table), w)
              end).

(** [cursor.fetchall()] *)
Definition fetchall (rows : list Row) : list Row := rows.

(** The ids of the creatures whose [creature_name] is [name]. *)
Definition creatures_named (srv : Schema) (name : string) (d : Database) : list Z :=
  omap (fun '(cid, c) =>
          if text_eqb srv (creature_name c) name then Some cid else None)
       (map_to_list (Creatures d)).

(** [SELECT creature_id FROM Creatures WHERE creature_name = %s LIMIT 1] *)
Definition select_creature_id (srv : Schema) (name : string) : M (list Z) :=
  cursor_execute_sql
    (fun w => (Returned (take 1 (creatures_named srv name (current w))), w)).

(** [SELECT race_id FROM Races WHERE race_name = %s LIMIT 1] *)
Definition select_race_id (srv : Schema) (name : string) : M (list Z) :=
  cursor_execute_sql
    (fun w => (Returned
                 (take 1 (omap (fun '(rid, n) =>
                                  if text_eqb srv n name then Some rid else None)
                               (map_to_list (Races (current w))))), w)).

(** [SELECT class_id FROM Classes WHERE class_name = %s LIMIT 1] *)
Definition select_class_id (srv : Schema) (name : string) : M (list Z) :=
  cursor_execute_sql
    (fun w => (Returned
                 (take 1 (omap (fun '(cid, n) =>
                                  if text_eqb srv n name then Some cid else None)
                               (map_to_list (Classes (current w))))), w)).

(** [UPDATE {table} SET gold = %s WHERE character_id = %s] *)
Definition update_set_gold (table : string) (g : Z) (character_id : Z) : M unit :=
  cursor_execute_sql
    (fun w => match characters_table table (current w) with
              | Some rows =>
                  (Returned tt,
                   set_txn (Some (with_Characters (alter (set_gold g) character_id rows)
                                                   (current w))) w)
              | None => (Raised (no_such_table table), w)
              end).

(** [UPDATE Creatures SET creature_name = %s WHERE creature_id = %s] *)
Definition update_creature_name (name : string) (creature_id : Z) : M unit :=
  cursor_execute_sql
    (fun w => (Returned tt,
               set_txn (Some (with_Creatures
                                (alter (set_creature_name name) creature_id
                                       (Creatures (current w)))
                                (current w))) w)).

(** [AUTO_INCREMENT]: a key above every key of the table. *)
Definition next_creature_id (creatures : gmap Z Creature) : Z :=
  1 + foldr Z.max 0 (map_to_list creatures).*1.

(** [INSERT INTO Creatures (creature_type, creature_name, hit_points,
    armor_class, speed, size, level, is_homebrew) VALUES (...)] with the
    values of [insert_row_generic]; the result is [cursor.lastrowid]. *)
Definition insert_creature (name : string) : M Z :=
  cursor_execute_sql
    (fun w => let creature_id := next_creature_id (Creatures (current w)) in
              (Returned creature_id,
               set_txn (Some (with_Creatures
                                (<[creature_id :=
                                     mkCreature "Character" name 50 10 30 "Medium" 1 false]>
                                   (Creatures (current w)))
                                (current w))) w)).

(** [INSERT INTO {table} (character_id, race_id, class_id, gold) VALUES
    (...)]: a key that is taken is refused. *)
Definition insert_character (table : string) (character_id race class g : Z) : M unit :=
  cursor_execute_sql
    (fun w => match characters_table table (current w) with
              | Some rows =>
                  match rows !! character_id with
                  | None =>
                      (Returned tt,
                       set_txn (Some (with_Characters
                                        (<[character_id := mkCharacter race class g]> rows)
                                        (current w))) w)
                  | Some _ => (Raised (MySQLError "Duplicate entry for key 'PRIMARY'"), w)
                  end
              | None => (Raised (no_such_table table), w)
              end).

(** [DELETE FROM {dependent} WHERE character_id = %s] (resp. [creature_id]) on
    one of the tables kept in [other_tables]. *)
Definition delete_dependent (srv : Schema) (dependent : string) (pk_val : Z) : M unit :=
  cursor_execute_sql
    (fun w => match other_tables (current w) !! dependent with
              | Some rows =>
                  (Returned tt,
                   set_txn (Some (with_other_tables
                                    (<[dependent :=
                                         filter (fun row => owner srv dependent row <> pk_val) rows]>
                                       (other_tables (current w)))
                                    (current w))) w)
              | None => (Raised (no_such_table dependent), w)
              end).

(** [DELETE FROM {table} WHERE character_id = %s] *)
Definition delete_character (table : string) (pk_val : Z) : M unit :=
  cursor_execute_sql
    (fun w => match characters_table table (current w) with
              | Some rows =>
                  (Returned tt,
                   set_txn (Some (with_Characters (delete pk_val rows) (current w))) w)
              | None => (Raised (no_such_table table), w)
              end).

(** [DELETE FROM Creatures WHERE creature_id = %s] *)
Definition delete_creature (pk_val : Z) : M unit :=
  cursor_execute_sql
    (fun w => (Returned tt,
               set_txn (Some (with_Creatures (delete pk_val (Creatures (current w)))
                                              (current w))) w)).

(** *** The functions *)

(** In both applications the table constant is ["Characters"], so of every
    [if TARGET_TABLE_NAME == "Characters": ... else: ...] (resp.
    [TABLE_NAME]) only the first branch can run; the functions below are
    that branch.  Their [st.error], [st.success] and [st.warning] calls
    write to the page and are not part of the result. *)

(** [fetch_all_generic] (Steamliteapp.py, lines 48-85) and [fetch_all]
    (Steamlite_allapp.py, lines 46-83). *)
Definition fetch_all_generic (srv : Schema) (app : App) : M (list Row) :=
  do conn <- get_connection;
  match conn with
  | None => ret []
  | Some _ =>
    run conn_cursor;
    try_finally
      (try_except_Error
         (do result <- select_characters srv (table_name app);
          let rows := fetchall result in
          ret rows)
         (fun e => ret []))
      close_if_connected
  end.

(** The message of the [ValueError] of an insertion without a name. *)
Definition name_required (app : App) : string :=
  match app with
  | Steamliteapp_py => "Creature Name is required for a new Character."
  | Steamlite_allapp_py => "Character Name is required."
  end.

(** [insert_row_generic] (Steamliteapp.py, lines 87-157) and [insert_row]
    (Steamlite_allapp.py, lines 85-155).  The two handlers, [except Error]
    and [except ValueError], have the same body. *)
Definition insert_row_generic (srv : Schema) (app : App) (data : Data) : M bool :=
  do conn <- get_connection;
  match conn with
  | None => ret false
  | Some _ =>
    run conn_cursor;
    try_finally
      (try_except
         (run conn_start_transaction;
          let creature_name := data_creature_name data in
          let gold := default 0 (data_gold data) in
          if negb (truthy_name creature_name)
          then raise (ValueError (name_required app))
          else
            let name := default "" creature_name in
            do found <- select_creature_id srv name;
            let existing_creature := fetchone found in
            run match existing_creature with
                | Some creature_id =>
                    update_set_gold (table_name app) gold creature_id
                | None =>
                    do creature_id <- insert_creature name;
                    do race_rows <- select_race_id srv "Human";
                    let race_fetched := 0 <? rowcount_unfetched in
                    let default_race_id :=
                      if race_fetched then default 1 (fetchone race_rows) else 1 in
                    do class_rows <- after_select race_fetched (select_class_id srv "Fighter");
                    let class_fetched := 0 <? rowcount_unfetched in
                    let default_class_id :=
                      if class_fetched then default 1 (fetchone class_rows) else 1 in
                    after_select class_fetched
                      (insert_character (table_name app) creature_id
                         default_race_id default_class_id gold)
                end;
            run conn_commit;
            ret true)
         (fun e =>
            run conn_rollback;
            ret false))
      close_if_connected
  end.

(** [update_row_generic] (Steamliteapp.py, lines 159-201) and [update_row]
    (Steamlite_allapp.py, lines 157-198). *)
Definition update_row_generic (app : App) (pk_val : Z) (data : Data) : M bool :=
  do conn <- get_connection;
  match conn with
  | None => ret false
  | Some _ =>
    run conn_cursor;
    try_finally
      (try_except_Error
         (run conn_start_transaction;
          let creature_name := data_creature_name data in
          run (if truthy_name creature_name
               then update_creature_name (default "" creature_name) pk_val
               else ret tt);
          let gold := data_gold data in
          run match gold with
              | Some g => update_set_gold (table_name app) g pk_val
              | None => ret tt
              end;
          run conn_commit;
          ret true)
         (fun e =>
            run conn_rollback;
            ret false))
      close_if_connected
  end.

(** [delete_row_generic] (Steamliteapp.py, lines 203-245) and [delete_row]
    (Steamlite_allapp.py, lines 200-242).  The model does not enforce
    foreign keys: a [DELETE] fails on a transient error or a missing table
    only. *)
Definition delete_row_generic (srv : Schema) (app : App) (pk_val : Z) : M bool :=
  do conn <- get_connection;
  match conn with
  | None => ret false
  | Some _ =>
    run conn_cursor;
    try_finally
      (try_except_Error
         (run conn_start_transaction;
          run delete_dependent srv "Character_Classes" pk_val;
          run delete_dependent srv "Character_Spells" pk_val;
          run delete_dependent srv "Character_Combats" pk_val;
          run delete_dependent srv "Inventory" pk_val;
          run delete_character (table_name app) pk_val;
          run delete_creature pk_val;
          run conn_commit;
          ret true)
         (fun e =>
            run conn_rollback;
            ret false))
      close_if_connected
  end.

(** *** A second sample database *)

Fixpoint decimal (s : string) (acc : Z) : Z :=
  match s with
  | EmptyString => acc
  | String c s' => decimal s' (10 * acc + (Z.of_nat (Ascii.nat_of_ascii c) - 48))
  end.

(** A binary collation; the key of a dependent row is its first cell. *)
Definition sample_schema : Schema :=
  {| text_eqb := String.eqb; text_leb := String.leb;
     owner := fun _ row => decimal (hd "" row) 0 |}.

Definition adventurer (name : string) : Creature :=
  mkCreature "Character" name 50 10 30 "Medium" 1 false.

(** Borin (2, 50 gold) and Aria (1, 100 gold) are characters, the goblin is
    not. *)
Definition party : Database :=
  {| Creatures := <[1 := adventurer "Aria"]> (<[2 := adventurer "Borin"]>
                  (<[3 := mkCreature "Monster" "Goblin" 7 15 30 "Small" 1 false]> ∅));
     Characters := <[1 := human_fighter 100]> (<[2 := human_fighter 50]> ∅);
     Races := <[1 := "Human"]> ∅;
     Classes := <[1 := "Fighter"]> ∅;
     other_tables :=
       <["Character_Classes" := [["1"; "1"]; ["2"; "1"]]]>
       (<["Character_Spells" := []]>
       (<["Character_Combats" := []]>
       (<["Inventory" := [["2"; "Axe"]; ["3"; "Club"]]]> ∅))) |}.

(** *** Calls in sequence *)

(** A call of one of the functions of the layer. *)
Inductive Call :=
| call_fetch_all
| call_insert_row (data : Data)
| call_update_row (pk_val : Z) (data : Data)
| call_delete_row (pk_val : Z)
| call_transfer_gold (from_id to_id amount : Z).

(** The exception that left a call, if one did. *)
Definition raised {A} (r : Result A) : option Exception :=
  match r with
  | Raised e => Some e
  | Returned _ => None
  end.

(** Running a call: the exception it let through, and the world after it. *)
Definition perform (srv : Schema) (app : App) (c : Call) (w : World)
  : option Exception * World :=
  match c with
  | call_fetch_all =>
      let '(r, w') := fetch_all_generic srv app w in (raised r, w')
  | call_insert_row data =>
      let '(r, w') := insert_row_generic srv app data w in (raised r, w')
  | call_update_row pk_val data =>
      let '(r, w') := update_row_generic app pk_val data w in (raised r, w')
  | call_delete_row pk_val =>
      let '(r, w') := delete_row_generic srv app pk_val w in (raised r, w')
  | call_transfer_gold from_id to_id amount =>
      let '(r, w') := transfer_gold app from_id to_id amount w in (raised r, w')
  end.

(** The names of the tables [delete_row_generic] clears before the
    character. *)
Definition dependent_tables : list string :=
  ["Character_Classes"; "Character_Spells"; "Character_Combats"; "Inventory"].

(** The row of [fetch_all_generic] for creature [cid], if it is a
    character. *)
Definition character_row (srv : Schema) (d : Database) (cid : Z) : option Row :=
  match Creatures d !! cid, Characters d !! cid with
  | Some c, Some t =>
      if text_eqb srv (creature_type c) "Character"
      then Some (mkRow cid (creature_name c) (gold t))
      else None
  | _, _ => None
  end.

(** *** The database after a write went through *)

Definition updated (pk_val : Z) (data : Data) (d : Database) : Database :=
  let d1 :=
    if truthy_name (data_creature_name data)
    then with_Creatures
           (alter (set_creature_name (default "" (data_creature_name data))) pk_val
                  (Creatures d)) d
    else d in
  match data_gold data with
  | Some g => with_Characters (alter (set_gold g) pk_val (Characters d1)) d1
  | None => d1
  end.

Definition clear_dependent (srv : Schema) (pk_val : Z)
    (t : gmap string (list (list string))) (dependent : string)
  : gmap string (list (list string)) :=
  alter (filter (fun row => owner srv dependent row <> pk_val)) dependent t.

Definition deleted (srv : Schema) (pk_val : Z) (d : Database) : Database :=
  {| Creatures := delete pk_val (Creatures d);
     Characters := delete pk_val (Characters d);
     Races := Races d; Classes := Classes d;
     other_tables := foldl (clear_dependent srv pk_val) (other_tables d) dependent_tables |}.

(** All the tables [delete_row_generic] clears exist. *)
Definition dependents_exist (d : Database) : bool :=
  forallb (fun name => bool_decide (is_Some (other_tables d !! name))) dependent_tables.

(** The gold a call writes, when it writes one, is not negative: the value
    of an insertion or of an update, the amount of a transfer. *)
Definition writes_nonneg (c : Call) : Prop :=
  match c with
  | call_fetch_all | call_delete_row _ => True
  | call_insert_row data | call_update_row _ data =>
      forall g, data_gold data = Some g -> 0 <= g
  | call_transfer_gold _ _ amount => 0 <= amount
  end.

(** ** Choosing a row in Steamlite_allapp.py *)

(** [str(n)] of an int, as an f-string prints it. *)
Definition str_int (n : Z) : string := NilZero.string_of_int (Z.to_int n).

(** [f"{name} (ID: {id_val})"] *)
Definition display_option (name : string) (id_val : Z) : string :=
  name +:+ " (ID: " +:+ str_int id_val +:+ ")".

(** [id_to_display_name] (line 328): the dict comprehension over the rows, a
    later row replacing an earlier one with the same id.  Every row of
    [fetch_all] has the key [creature_name], so the default of [row.get] is
    not used. *)
Definition id_to_display_name (rows : list Row) : gmap Z string :=
  foldl (fun m row => <[row_id row := row_creature_name row]> m) ∅ rows.

(** [display_options] (line 329), with [row_ids] of line 325. *)
Definition display_options (rows : list Row) : list string :=
  let row_ids := row_id <$> rows in
  (fun id_val => display_option (id_to_display_name rows !!! id_val) id_val) <$> row_ids.

(** [s.split(sep)] for a non-empty [sep]: the pieces between the occurrences
    of [sep], found from the left and not overlapping.  [skip] counts the
    characters of an occurrence still to pass, [piece] is the piece read so
    far. *)
Fixpoint split_from (sep : string) (skip : nat) (piece : string) (s : string)
  : list string :=
  match s with
  | EmptyString => [piece]
  | String c s' =>
      match skip with
      | S k => split_from sep k piece s'
      | O =>
          if String.prefix sep s
          then piece :: split_from sep (String.length sep - 1) "" s'
          else split_from sep 0 (piece +:+ String c "") s'
      end
  end.

Definition py_split (sep s : string) : list string := split_from sep 0 "" s.

(** [s[:-1]] *)
Fixpoint drop_last (s : string) : string :=
  match s with
  | EmptyString => ""
  | String c EmptyString => ""
  | String c s' => String c (drop_last s')
  end.

(** [int(selected_display_name.split('(ID: ')[1][:-1])] (lines 331 and 357).
    [int] is Python's conversion, [None] where it raises [ValueError]; the
    result is [None] too where [[1]] raises [IndexError].  Neither is caught:
    the script stops there. *)
Definition selected_id (int : string -> option Z) (selected_display_name : string)
  : option Z :=
  match py_split "(ID: " selected_display_name with
  | _ :: piece :: _ => int (drop_last piece)
  | _ => None
  end.

(** [next((row for row in rows if row['id'] == selected_id), None)]
    (line 333). *)
Definition selected_row (rows : list Row) (selected : Z) : option Row :=
  head (filter (fun row => row_id row = selected) rows).

(** [sep] occurs in [s]. *)
Definition occurs (sep s : string) : Prop :=
  exists a b, s = a +:+ sep +:+ b.

(** A conversion of the decimal numerals, for examples. *)
Definition decimal_int (s : string) : option Z :=
  Z.of_int <$> NilZero.int_of_string s.

(** The character [c] is not in [s]. *)
Fixpoint lacks (c : ascii) (s : string) : bool :=
  match s with
  | EmptyString => true
  | String x s' => negb (Ascii.eqb x c) && lacks c s'
  end.

(** ** Choosing a row in Steamliteapp.py *)

(** [row_options] (lines 339-342, and [row_delete_options], lines 383-386):
    the entries of the select box with the id each stands for, a later row
    replacing an earlier one with the same entry. *)
Definition row_options (rows : list Row) : gmap string Z :=
  foldl (fun m row =>
           <[display_option (row_creature_name row) (row_id row) := row_id row]> m)
        ∅ rows.

(** [current_record_details] (lines 349-352) for the entry the select box
    returns, [None] when it has no entry to offer. *)
Definition current_record_details (rows_for_select : list Row)
    (selected_pk_name_display : option string) : option Row :=
  let selected_pk_val :=
    match selected_pk_name_display with
    | Some entry => row_options rows_for_select !! entry
    | None => None
    end in
  if truthy_id selected_pk_val
  then match selected_pk_val with
       | Some pk => selected_row rows_for_select pk
       | None => None
       end
  else None.

(** * Symbolic execution of a call *)

Ltac unfold_app :=
  unfold transfer_gold, Steamliteapp.transfer_gold, Steamlite_allapp.transfer_gold,
    Steamliteapp.TARGET_TABLE_NAME, Steamlite_allapp.TABLE_NAME,
    select_gold_for_update, update_gold, cursor_execute, fetchone,
    conn_start_transaction, conn_commit, conn_rollback, conn_close,
    conn_is_connected, conn_cursor, get_connection,
    try_finally, try_except, bind, ret, raise,
    characters_table, current, record, set_txn, set_db, set_faults,
    set_connection in *.

(** Case split on the innermost scrutinee that blocks reduction. *)
Ltac split_match :=
  match goal with
  | |- context [match ?x with _ => _ end] =>
      lazymatch x with
      | context [match _ with _ => _ end] => fail
      | _ => first [ is_var x; destruct x
                   | let E := fresh "E" in destruct x eqn:E ]
      end
  end.

Ltac exec := repeat (split_match; cbn).

Lemma add_gold_cancel amount r : add_gold amount (add_gold (- amount) r) = r.
Proof. destruct r as [rc cl g]. unfold add_gold; cbn. f_equal. lia. Qed.

Lemma transferred_same_entity id amount d : transferred id id amount d = d.
Proof.
  destruct d as [cr ch ra cls ot]. unfold transferred, with_Characters; cbn. f_equal.
  apply map_eq. intros k. destruct (decide (id = k)) as [<- | Hne].
  - rewrite !lookup_alter_eq. destruct (ch !! id) as [r|]; cbn; [|done].
    by rewrite add_gold_cancel.
  - by rewrite !lookup_alter_ne.
Qed.

Lemma gold_of_transferred_from from_id to_id amount d g :
  from_id <> to_id -> gold_of d from_id = Some g ->
  gold_of (transferred from_id to_id amount d) from_id = Some (g - amount).
Proof.
  unfold gold_of, transferred, with_Characters; cbn. intros Hne H.
  rewrite lookup_alter_ne by congruence. rewrite lookup_alter_eq.
  destruct (Characters d !! from_id) as [r|]; cbn in *; [|done].
  injection H as <-. f_equal; lia.
Qed.

Lemma gold_of_transferred_to from_id to_id amount d g :
  from_id <> to_id -> gold_of d to_id = Some g ->
  gold_of (transferred from_id to_id amount d) to_id = Some (g + amount).
Proof.
  unfold gold_of, transferred, with_Characters; cbn. intros Hne H.
  rewrite lookup_alter_eq. rewrite lookup_alter_ne by congruence.
  destruct (Characters d !! to_id) as [r|]; cbn in *; [|done].
  by injection H as <-.
Qed.

Lemma Characters_transferred_other from_id to_id amount d id :
  id <> from_id -> id <> to_id ->
  Characters (transferred from_id to_id amount d) !! id = Characters d !! id.
Proof.
  intros H1 H2. unfold transferred, with_Characters; cbn.
  by rewrite !lookup_alter_ne by congruence.
Qed.

(** A transfer rewrites [gold] and nothing else of a row, and neither adds
    nor removes a row. *)
Lemma Characters_transferred_fields from_id to_id amount d id :
  (race_id <$> Characters (transferred from_id to_id amount d) !! id
   = race_id <$> Characters d !! id) /\
  (class_id <$> Characters (transferred from_id to_id amount d) !! id
   = class_id <$> Characters d !! id).
Proof.
  unfold transferred, with_Characters; cbn.
  rewrite !lookup_alter.
  repeat case_decide; subst; by destruct (Characters d !! id) as [[rc cl g]|].
Qed.

Lemma events_of_after_call w d' evs : events_of w (after_call w d' evs) = evs.
Proof. unfold events_of, after_call; cbn. apply drop_app_length. Qed.

(** ** What a call does, from any world *)

(** Either the committed database is untouched and the call did not report
    success, or it reported success and the committed database is the old
    one with the amount moved. *)
Lemma transfer_gold_cases app from_id to_id amount w r w' :
  transfer_gold app from_id to_id amount w = (r, w') ->
  (db w' = db w /\ forall m, r <> Returned (true, m)) \/
  (r = Returned (true, "Gold transfer successful!") /\
   exists gf gt,
     gold_of (db w) from_id = Some gf /\ gold_of (db w) to_id = Some gt /\
     amount <= gf /\ db w' = transferred from_id to_id amount (db w)).
Proof.
  destruct w as [d t c f l]. unfold gold_of, transferred.
  destruct app; unfold_app; cbn.
  all: exec.
  all: intros [= <- <-]; cbn.
  all: try (left; split; [reflexivity | intros m; discriminate]).
  all: right; split; [reflexivity|].
  all: destruct (Characters d !! from_id) as [[? ? gf]|]; [|discriminate].
  all: destruct (Characters d !! to_id) as [[? ? gt]|]; [|discriminate].
  all: cbn in *; simplify_eq.
  all: match goal with H : (_ <? _) = false |- _ => apply Z.ltb_ge in H end.
  all: eexists _, _; split; [reflexivity | split; [reflexivity | split; [lia | reflexivity]]].
Qed.

(** A call on the cached connection once it has been closed: [conn.cursor()]
    stands before the [try], so its exception leaves the function. *)
Lemma transfer_gold_closed app from_id to_id amount d t f l :
  transfer_gold app from_id to_id amount (mkWorld d t (Some false) f l)
  = (Raised not_available, mkWorld d t (Some false) f l).
Proof. destruct app; reflexivity. Qed.

(** A call on a ready world, in full. *)
Lemma transfer_gold_ready_outcome app from_id to_id amount w :
  ready w ->
  transfer_gold app from_id to_id amount w =
  match gold_of (db w) from_id, gold_of (db w) to_id with
  | Some from_gold, Some _ =>
      if from_gold <? amount
      then (Returned (false, "Gold transfer failed: " +:+ insufficient_gold app),
            after_call w (db w)
              [StartTransaction;
               SelectGoldForUpdate "Characters" from_id;
               SelectGoldForUpdate "Characters" to_id;
               Rollback; Close])
      else (Returned (true, "Gold transfer successful!"),
            after_call w (transferred from_id to_id amount (db w))
              [StartTransaction;
               SelectGoldForUpdate "Characters" from_id;
               SelectGoldForUpdate "Characters" to_id;
               UpdateGold "Characters" (- amount) from_id;
               UpdateGold "Characters" amount to_id;
               Commit; Close])
  | _, _ =>
      (Returned (false, "Gold transfer failed: One of the selected characters does not exist."),
       after_call w (db w)
         [StartTransaction;
          SelectGoldForUpdate "Characters" from_id;
          SelectGoldForUpdate "Characters" to_id;
          Rollback; Close])
  end.
Proof.
  destruct w as [d t c f l]. intros (Hc & Ht & Hf); cbn in *; subst.
  unfold gold_of, after_call, transferred, with_Characters.
  destruct app; unfold_app; cbn.
  all: destruct (Characters d !! from_id) as [[? ? gf]|];
       destruct (Characters d !! to_id) as [[? ? gt]|]; cbn;
       try destruct (gf <? amount); cbn; rewrite <- ?app_assoc; reflexivity.
Qed.

(** Whatever the world, a call only appends to the statement log, and the
    rows it locks are, in order, a prefix of [from_id; to_id]. *)
Lemma transfer_gold_log app from_id to_id amount w :
  exists evs,
    log (snd (transfer_gold app from_id to_id amount w)) = log w ++ evs /\
    locks evs `prefix_of` [from_id; to_id].
Proof.
  destruct w as [d t c f l].
  destruct app; unfold_app; cbn.
  all: exec; rewrite <- ?app_assoc.
  all: first [ eexists; split; [reflexivity|]
             | exists []; split; [symmetry; apply app_nil_r|] ].
  all: cbn; by eexists.
Qed.

(** A call that does not report success leaves the committed database as it
    was: the rollback of the handler, or the server dropping the open
    transaction when the connection is closed. *)
Lemma transfer_gold_failure_keeps_db app from_id to_id amount w msg w' :
  transfer_gold app from_id to_id amount w = (Returned (false, msg), w') ->
  db w' = db w.
Proof.
  intros H. destruct (transfer_gold_cases _ _ _ _ _ _ _ H) as [[Hdb _] | [Hr _]];
    [assumption | discriminate].
Qed.

(** On a connection that is not closed every failure inside the function is
    turned into a pair. *)
Lemma transfer_gold_returns app from_id to_id amount w :
  connection w <> Some false ->
  exists ok msg w', transfer_gold app from_id to_id amount w = (Returned (ok, msg), w').
Proof.
  destruct w as [d t c f l]; cbn. intros Hc.
  destruct c as [[|]|]; [| congruence |].
  all: destruct app; unfold_app; cbn.
  all: exec; by eexists _, _, _.
Qed.

(** A call on a connected connection leaves it closed in the cache, so the
    call after it, whatever its arguments, raises. *)
Lemma transfer_gold_closes_connection app from_id to_id amount w :
  connection w = Some true ->
  connection (snd (transfer_gold app from_id to_id amount w)) = Some false.
Proof.
  destruct w as [d t c f l]; cbn. intros ->.
  destruct app; unfold_app; cbn.
  all: exec; reflexivity.
Qed.

Lemma transfer_gold_next_call_raises app from_id to_id amount w app' from_id' to_id' amount' :
  connection w = Some true ->
  fst (transfer_gold app' from_id' to_id' amount'
         (snd (transfer_gold app from_id to_id amount w)))
  = Raised not_available.
Proof.
  intros Hc. pose proof (transfer_gold_closes_connection app from_id to_id amount w Hc) as H.
  destruct (snd (transfer_gold app from_id to_id amount w)) as [d t c f l].
  cbn in H; subst c. by rewrite transfer_gold_closed.
Qed.

(** The source balance does not cover the amount. *)
Lemma transfer_gold_insufficient app w from_id to_id amount from_gold to_gold :
  ready w ->
  gold_of (db w) from_id = Some from_gold -> gold_of (db w) to_id = Some to_gold ->
  from_gold < amount ->
  exists w',
    transfer_gold app from_id to_id amount w
    = (Returned (false, "Gold transfer failed: " +:+ insufficient_gold app), w') /\
    db w' = db w.
Proof.
  intros Hr Hf Ht Hlt. rewrite (transfer_gold_ready_outcome _ _ _ _ _ Hr), Hf, Ht.
  apply Z.ltb_lt in Hlt. rewrite Hlt. by eexists.
Qed.

(** Both rows exist and the source balance covers the amount, of whatever
    sign: the amount moves. *)
Lemma transfer_gold_moves app w from_id to_id amount from_gold to_gold :
  ready w ->
  gold_of (db w) from_id = Some from_gold -> gold_of (db w) to_id = Some to_gold ->
  from_id <> to_id -> amount <= from_gold ->
  exists w',
    transfer_gold app from_id to_id amount w
    = (Returned (true, "Gold transfer successful!"), w') /\
    gold_of (db w') from_id = Some (from_gold - amount) /\
    gold_of (db w') to_id = Some (to_gold + amount).
Proof.
  intros Hr Hf Ht Hne Hle. rewrite (transfer_gold_ready_outcome _ _ _ _ _ Hr), Hf, Ht.
  apply Z.ltb_ge in Hle. rewrite Hle. eexists. split; [reflexivity|]. cbn. split.
  - by apply gold_of_transferred_from.
  - by apply gold_of_transferred_to.
Qed.

(** A lock wait timeout on the second [SELECT ... FOR UPDATE]: the handler
    rolls back and returns the error as a message. *)
Example transfer_gold_lock_timeout :
  let w := set_faults [None; Some "1205 (HY000): Lock wait timeout exceeded"] (fresh bank) in
  fst (transfer_gold Steamliteapp_py 1 2 30 w)
  = Returned (false, "Gold transfer failed: 1205 (HY000): Lock wait timeout exceeded")
  /\ gold_of (db (snd (transfer_gold Steamliteapp_py 1 2 30 w))) 1 = Some 100
  /\ gold_of (db (snd (transfer_gold Steamliteapp_py 1 2 30 w))) 2 = Some 50
  /\ events_of w (snd (transfer_gold Steamliteapp_py 1 2 30 w))
     = [StartTransaction; SelectGoldForUpdate "Characters" 1; Rollback; Close].
Proof. repeat split; reflexivity. Qed.

Lemma ready_fresh d : ready (fresh d).
Proof. by repeat split. Qed.

Lemma balances_nonneg_bank : balances_nonneg bank.
Proof.
  intros id g. unfold gold_of, bank; cbn.
  rewrite !lookup_insert. repeat case_decide; cbn; intros [= <-]; lia.
Qed.

(** * The claims *)

(** ** Valid transfers *)

(** X25. On a ready world, a call in which both characters exist, differ,
    the amount is positive and the source holds at least the amount returns
    [ok = True]; afterwards the source holds its former gold minus the
    amount, the destination its former gold plus the amount, and the sum of
    the two balances is what it was.  Readiness is needed: on the cached
    connection, once a call has closed it, the same transfer raises. *)
Theorem transfer_gold_success_conserves
    (app : App) (w : World) (from_id to_id amount from_gold to_gold : Z) :
  ready w ->
  gold_of (db w) from_id = Some from_gold ->
  gold_of (db w) to_id = Some to_gold ->
  from_id <> to_id -> 0 < amount -> amount <= from_gold ->
  exists msg w',
    transfer_gold app from_id to_id amount w = (Returned (true, msg), w') /\
    gold_of (db w') from_id = Some (from_gold - amount) /\
    gold_of (db w') to_id = Some (to_gold + amount) /\
    balance_sum (db w') from_id to_id = balance_sum (db w) from_id to_id.
Proof.
  intros Hr Hf Ht Hne Hpos Hle.
  destruct (transfer_gold_moves app w from_id to_id amount from_gold to_gold)
    as (w' & Hcall & Hf' & Ht'); try assumption.
  exists "Gold transfer successful!", w'. repeat split; try assumption.
  unfold balance_sum. rewrite Hf', Ht', Hf, Ht. f_equal. lia.
Qed.

Lemma transfer_gold_success_conserves_witness :
  exists msg w',
    transfer_gold Steamliteapp_py 1 2 30 (fresh bank) = (Returned (true, msg), w') /\
    gold_of (db w') 1 = Some (100 - 30) /\
    gold_of (db w') 2 = Some (50 + 30) /\
    balance_sum (db w') 1 2 = balance_sum (db (fresh bank)) 1 2.
Proof.
  apply (transfer_gold_success_conserves Steamliteapp_py (fresh bank) 1 2 30 100 50).
  - repeat split; reflexivity.
  - reflexivity.
  - reflexivity.
  - lia.
  - lia.
  - lia.
Defined.

(** ** Failures *)

(** C2. The first call of a process on the sample database succeeds and, in
    its [finally], closes the connection that [get_connection] keeps in its
    cache.  The next call, a transfer to character 3, which does not exist,
    gets that closed connection: [conn.cursor()] raises before the [try] is
    entered and the exception reaches the caller instead of a
    [(False, message)] pair. *)
Theorem failure_after_first_call_propagates (app : App) :
  exists w1,
    transfer_gold app 1 2 30 (fresh bank)
    = (Returned (true, "Gold transfer successful!"), w1) /\
    gold_of (db w1) 3 = None /\
    transfer_gold app 1 3 10 w1 = (Raised not_available, w1).
Proof.
  rewrite (transfer_gold_ready_outcome _ _ _ _ _ (ready_fresh bank)).
  eexists. split; [reflexivity|]. split; [reflexivity|].
  apply transfer_gold_closed.
Qed.

(** ** Lock order *)

(** C3, against.  Transferring from character 2 to character 1 locks row 2
    first and row 1 second: the higher id before the lower. *)
Lemma lock_order_counterexample :
  locks (events_of (fresh bank)
           (snd (transfer_gold Steamliteapp_py 2 1 30 (fresh bank)))) = [2; 1]
  /\ ascending [2; 1] = false.
Proof. split; reflexivity. Qed.

(** C3, amended.  The rows are locked in the order of the arguments: a call
    never locks anything but a prefix of [from_id; to_id], and on a ready
    world it locks exactly [from_id] and then [to_id], whichever id is the
    lower. *)
Theorem locks_in_argument_order (app : App) (w : World) (from_id to_id amount : Z) :
  locks (events_of w (snd (transfer_gold app from_id to_id amount w)))
    `prefix_of` [from_id; to_id]
  /\ (ready w ->
      locks (events_of w (snd (transfer_gold app from_id to_id amount w)))
      = [from_id; to_id]).
Proof.
  split.
  - destruct (transfer_gold_log app from_id to_id amount w) as (evs & Hlog & Hpre).
    unfold events_of. rewrite Hlog, drop_app_length. exact Hpre.
  - intros Hr. rewrite (transfer_gold_ready_outcome _ _ _ _ _ Hr).
    destruct (gold_of (db w) from_id) as [gf|], (gold_of (db w) to_id) as [gt|];
      try destruct (gf <? amount); cbn [snd]; rewrite events_of_after_call;
      reflexivity.
Qed.

Lemma locks_in_argument_order_witness :
  locks (events_of (fresh bank)
           (snd (transfer_gold Steamlite_allapp_py 2 1 30 (fresh bank)))) = [2; 1].
Proof.
  apply (proj2 (locks_in_argument_order Steamlite_allapp_py (fresh bank) 2 1 30)).
  repeat split; reflexivity.
Defined.

(** ** Validation of the arguments *)

(** C4, against.  [transfer_gold(1, 1, 30)] on the sample database is not
    refused: it locks row 1 twice, runs both updates on it and reports
    success. *)
Lemma same_entity_counterexample :
  fst (transfer_gold Steamliteapp_py 1 1 30 (fresh bank))
  = Returned (true, "Gold transfer successful!")
  /\ locks (events_of (fresh bank)
              (snd (transfer_gold Steamliteapp_py 1 1 30 (fresh bank)))) = [1; 1]
  /\ updates (events_of (fresh bank)
                (snd (transfer_gold Steamliteapp_py 1 1 30 (fresh bank)))) = [1; 1].
Proof. repeat split; reflexivity. Qed.

(** C4, amended.  The same-character check is the caller's: the button
    answers "Cannot transfer gold to the same character!" without calling
    [transfer_gold], so without any statement and in an unchanged world.
    [transfer_gold] itself has no such check.  Called with [from_id = to_id]
    on a ready world it takes the lock on that row twice and, when the row
    exists and holds at least the amount, reports success after two updates
    of that row, the first taking the amount and the second giving it back.
    Whatever the world and whatever it returns, it leaves the committed
    database as it was. *)
Theorem same_entity_checked_by_button
    (app : App) (w : World) (id : option Z) (n amount g : Z) :
  transfer_gold_button app id id amount w
  = (Returned (st_error "Cannot transfer gold to the same character!"), w)
  /\ db (snd (transfer_gold app n n amount w)) = db w
  /\ (ready w ->
      locks (events_of w (snd (transfer_gold app n n amount w))) = [n; n]
      /\ (gold_of (db w) n = Some g -> amount <= g ->
          fst (transfer_gold app n n amount w)
          = Returned (true, "Gold transfer successful!")
          /\ events_of w (snd (transfer_gold app n n amount w))
             = [StartTransaction;
                SelectGoldForUpdate "Characters" n;
                SelectGoldForUpdate "Characters" n;
                UpdateGold "Characters" (- amount) n;
                UpdateGold "Characters" amount n;
                Commit; Close])).
Proof.
  split; [|split].
  - unfold transfer_gold_button. by rewrite bool_decide_eq_true_2.
  - destruct (transfer_gold app n n amount w) as [r w'] eqn:H; cbn [snd].
    destruct (transfer_gold_cases _ _ _ _ _ _ _ H)
      as [[Hdb _] | (_ & gf & gt & _ & _ & _ & Hdb)]; [assumption|].
    rewrite Hdb. apply transferred_same_entity.
  - intros Hr. rewrite (transfer_gold_ready_outcome _ _ _ _ _ Hr). split.
    + destruct (gold_of (db w) n) as [gf|];
        try destruct (gf <? amount); cbn [snd]; rewrite events_of_after_call;
        reflexivity.
    + intros -> Hle. apply Z.ltb_ge in Hle. rewrite Hle. cbn [fst snd].
      by rewrite events_of_after_call.
Qed.

Lemma same_entity_checked_by_button_witness :
  fst (transfer_gold Steamlite_allapp_py 2 2 50 (fresh bank))
  = Returned (true, "Gold transfer successful!")
  /\ events_of (fresh bank) (snd (transfer_gold Steamlite_allapp_py 2 2 50 (fresh bank)))
     = [StartTransaction;
        SelectGoldForUpdate "Characters" 2;
        SelectGoldForUpdate "Characters" 2;
        UpdateGold "Characters" (- 50) 2;
        UpdateGold "Characters" 50 2;
        Commit; Close].
Proof.
  refine (proj2 (proj2 (proj2 (same_entity_checked_by_button
                                 Steamlite_allapp_py (fresh bank) None 2 50 50)) _) _ _).
  - repeat split; reflexivity.
  - reflexivity.
  - lia.
Defined.

(** C5, against.  [transfer_gold(1, 2, -30)] on the sample database reports
    success and moves 30 gold from character 2 to character 1;
    [transfer_gold(1, 2, 0)] reports success too. *)
Lemma nonpositive_amount_counterexample :
  fst (transfer_gold Steamliteapp_py 1 2 (-30) (fresh bank))
  = Returned (true, "Gold transfer successful!")
  /\ gold_of (db (snd (transfer_gold Steamliteapp_py 1 2 (-30) (fresh bank)))) 1 = Some 130
  /\ gold_of (db (snd (transfer_gold Steamliteapp_py 1 2 (-30) (fresh bank)))) 2 = Some 20
  /\ fst (transfer_gold Steamliteapp_py 1 2 0 (fresh bank))
     = Returned (true, "Gold transfer successful!").
Proof. repeat split; reflexivity. Qed.

(** C5, amended.  The amount is checked by the caller only: with amount 0
    the button returns its feedback without a statement, in an unchanged
    world.  [transfer_gold] does not look at the sign: on a ready world, with
    both characters existing and different and an amount [<= 0] (which a
    non-negative source balance always covers), it reports success, the
    source holding its former gold minus the amount and the destination its
    former gold plus the amount. *)
Theorem amount_checked_by_button
    (app : App) (w : World) (from_id to_id amount from_gold to_gold : Z) :
  (forall f t : option Z,
      exists feedback, transfer_gold_button app f t 0 w = (Returned feedback, w))
  /\ (ready w ->
      gold_of (db w) from_id = Some from_gold ->
      gold_of (db w) to_id = Some to_gold ->
      from_id <> to_id -> amount <= 0 -> amount <= from_gold ->
      exists w',
        transfer_gold app from_id to_id amount w
        = (Returned (true, "Gold transfer successful!"), w') /\
        gold_of (db w') from_id = Some (from_gold - amount) /\
        gold_of (db w') to_id = Some (to_gold + amount)).
Proof.
  split.
  - intros f t. unfold transfer_gold_button.
    destruct (bool_decide (f = t)); [by eexists|].
    destruct f as [f|], t as [t|]; try by eexists.
    cbn. rewrite andb_false_r. by eexists.
  - intros Hr Hf Ht Hne _ Hle. by apply transfer_gold_moves.
Qed.

Lemma amount_checked_by_button_witness :
  exists w',
    transfer_gold Steamliteapp_py 1 2 (-30) (fresh bank)
    = (Returned (true, "Gold transfer successful!"), w') /\
    gold_of (db w') 1 = Some (100 - -30) /\
    gold_of (db w') 2 = Some (50 + -30).
Proof.
  apply (proj2 (amount_checked_by_button Steamliteapp_py (fresh bank) 1 2 (-30) 100 50)).
  - repeat split; reflexivity.
  - reflexivity.
  - reflexivity.
  - lia.
  - lia.
  - lia.
Defined.

(** ** The non-negative balance invariant *)

(** C6, against.  Every balance of the sample database is non-negative;
    after [transfer_gold(1, 2, -80)] character 2 holds -30. *)
Lemma negative_balance_counterexample :
  balances_nonneg bank
  /\ gold_of (db (snd (transfer_gold Steamliteapp_py 1 2 (-80) (fresh bank)))) 2
     = Some (-30)
  /\ ~ balances_nonneg (db (snd (transfer_gold Steamliteapp_py 1 2 (-80) (fresh bank)))).
Proof.
  split; [apply balances_nonneg_bank|]. split; [reflexivity|].
  intros H. specialize (H 2 (-30) eq_refl). lia.
Qed.

(** C6, amended.  For an amount that is not negative, a call from any world
    whose balances are all non-negative ends, whatever its outcome, in a
    world whose balances are all non-negative. *)
Theorem transfer_gold_keeps_balances_nonneg
    (app : App) (w : World) (from_id to_id amount : Z) :
  0 <= amount ->
  balances_nonneg (db w) ->
  balances_nonneg (db (snd (transfer_gold app from_id to_id amount w))).
Proof.
  intros Hpos Hinv.
  destruct (transfer_gold app from_id to_id amount w) as [r w'] eqn:H; cbn [snd].
  destruct (transfer_gold_cases _ _ _ _ _ _ _ H)
    as [[Hdb _] | (_ & gf & gt & Hf & Ht & Hle & Hdb)]; rewrite Hdb; [assumption|].
  destruct (decide (from_id = to_id)) as [<- | Hne];
    [by rewrite transferred_same_entity|].
  intros id g Hg.
  destruct (decide (id = from_id)) as [-> | Hnf].
  { rewrite (gold_of_transferred_from _ _ _ _ _ Hne Hf) in Hg.
    injection Hg as <-. lia. }
  destruct (decide (id = to_id)) as [-> | Hnt].
  { rewrite (gold_of_transferred_to _ _ _ _ _ Hne Ht) in Hg.
    injection Hg as <-. specialize (Hinv _ _ Ht). lia. }
  unfold gold_of in Hg. rewrite Characters_transferred_other in Hg by assumption.
  exact (Hinv _ _ Hg).
Qed.

Lemma transfer_gold_keeps_balances_nonneg_witness :
  balances_nonneg (db (snd (transfer_gold Steamliteapp_py 1 2 30 (fresh bank)))).
Proof.
  apply (transfer_gold_keeps_balances_nonneg Steamliteapp_py (fresh bank) 1 2 30).
  - lia.
  - intros id g. unfold gold_of; simpl.
    rewrite !lookup_insert. repeat case_decide; simpl; intros [= <-]; lia.
Defined.

(** ** Insufficient balance and the two-call scenario *)

(** C7.  Character 1 holds 100 and character 2 holds 50.  The first call,
    [transfer_gold(1, 2, 30)], returns [ok = True] and leaves 70 and 80.  It
    also closes the cached connection, so the subsequent
    [transfer_gold(1, 2, 1000)] does not return [ok = False]: it raises
    "MySQL Connection not available."; the balances stay at 70 and 80. *)
Theorem scenario_second_call_raises (app : App) :
  exists w1,
    transfer_gold app 1 2 30 (fresh bank)
    = (Returned (true, "Gold transfer successful!"), w1) /\
    gold_of (db w1) 1 = Some 70 /\ gold_of (db w1) 2 = Some 80 /\
    connection w1 = Some false /\
    transfer_gold app 1 2 1000 w1 = (Raised not_available, w1).
Proof.
  rewrite (transfer_gold_ready_outcome _ _ _ _ _ (ready_fresh bank)).
  eexists. repeat split; try reflexivity. apply transfer_gold_closed.
Qed.

(** ** Missing characters *)

(** X26.  On a ready world, when one of the two characters has no row, the
    call returns [ok = False] with the message of the not-found error, no
    [UPDATE] was run, and the committed database is what it was.  Readiness
    is needed: on the cached connection, once a call has closed it, the same
    transfer raises. *)
Theorem transfer_gold_missing_character
    (app : App) (w : World) (from_id to_id amount : Z) :
  ready w ->
  gold_of (db w) from_id = None \/ gold_of (db w) to_id = None ->
  exists w',
    transfer_gold app from_id to_id amount w
    = (Returned (false, "Gold transfer failed: One of the selected characters does not exist."),
       w') /\
    updates (events_of w w') = [] /\
    db w' = db w.
Proof.
  intros Hr Hmiss. rewrite (transfer_gold_ready_outcome _ _ _ _ _ Hr).
  eexists. split.
  - destruct Hmiss as [-> | ->]; [reflexivity|].
    destruct (gold_of (db w) from_id); reflexivity.
  - rewrite events_of_after_call. split; reflexivity.
Qed.

Lemma transfer_gold_missing_character_witness :
  exists w',
    transfer_gold Steamlite_allapp_py 1 3 10 (fresh bank)
    = (Returned (false, "Gold transfer failed: One of the selected characters does not exist."),
       w') /\
    updates (events_of (fresh bank) w') = [] /\
    db w' = db (fresh bank).
Proof.
  apply (transfer_gold_missing_character Steamlite_allapp_py (fresh bank) 1 3 10).
  - repeat split; reflexivity.
  - right. reflexivity.
Defined.

(** ** Frame *)

(** C9.  Whatever the world and the outcome, a call leaves the tables
    [Creatures], [Races], [Classes] and all the other tables as they were, every row of
    [Characters] other than those of [from_id] and [to_id] as it was, and in
    every row of [Characters] the columns [race_id] and [class_id] as they
    were; no row appears or disappears. *)
Theorem transfer_gold_frame (app : App) (w : World) (from_id to_id amount : Z) :
  let d' := db (snd (transfer_gold app from_id to_id amount w)) in
  Creatures d' = Creatures (db w) /\
  Races d' = Races (db w) /\
  Classes d' = Classes (db w) /\
  other_tables d' = other_tables (db w) /\
  (forall id, id <> from_id -> id <> to_id ->
     Characters d' !! id = Characters (db w) !! id) /\
  (forall id, race_id <$> Characters d' !! id = race_id <$> Characters (db w) !! id) /\
  (forall id, class_id <$> Characters d' !! id = class_id <$> Characters (db w) !! id).
Proof.
  cbv zeta.
  destruct (transfer_gold app from_id to_id amount w) as [r w'] eqn:H; cbn [snd].
  destruct (transfer_gold_cases _ _ _ _ _ _ _ H)
    as [[Hdb _] | (_ & gf & gt & _ & _ & _ & Hdb)]; rewrite Hdb.
  - repeat split; reflexivity.
  - do 4 (split; [reflexivity|]). split; [|split].
    + intros id Hf Ht. by apply Characters_transferred_other.
    + intros id. apply Characters_transferred_fields.
    + intros id. apply Characters_transferred_fields.
Qed.

(** ** The two applications *)

(** C10.  For every input and every world the two functions end in the same
    world, and either both return, with the same flag, or both raise, the
    same exception. *)
Theorem transfer_gold_apps_agree (from_id to_id amount : Z) (w : World) :
  same_outcome (fst (Steamliteapp.transfer_gold from_id to_id amount w))
               (fst (Steamlite_allapp.transfer_gold from_id to_id amount w))
  /\ snd (Steamliteapp.transfer_gold from_id to_id amount w)
     = snd (Steamlite_allapp.transfer_gold from_id to_id amount w).
Proof.
  destruct w as [d t c f l]. unfold same_outcome. unfold_app; cbn.
  exec; split; reflexivity.
Qed.

(** * The rest of the data access layer *)

Ltac unfold_crud :=
  unfold perform, fetch_all_generic, insert_row_generic, update_row_generic,
    delete_row_generic, table_name, close_if_connected, after_select,
    rowcount_unfetched, fetchall,
    select_characters, select_creature_id, select_race_id, select_class_id,
    update_set_gold, update_creature_name, insert_creature, insert_character,
    delete_dependent, delete_character, delete_creature,
    cursor_execute_sql, cursor_execute_unread, try_except_Error in *;
  unfold_app.

Lemma table_name_Characters app : table_name app = "Characters".
Proof. by destruct app. Qed.

(** ** Reading *)

Lemma elem_of_joined_rows srv creatures characters r :
  r ∈ joined_rows srv creatures characters <->
  exists c t,
    creatures !! row_id r = Some c /\
    text_eqb srv (creature_type c) "Character" = true /\
    characters !! row_id r = Some t /\
    row_creature_name r = creature_name c /\ row_gold r = gold t.
Proof.
  unfold joined_rows. rewrite list_elem_of_omap. split.
  - intros ([cid c] & Hin & Hf). apply elem_of_map_to_list in Hin.
    destruct (text_eqb srv (creature_type c) "Character") eqn:Hty; [|done].
    destruct (characters !! cid) as [t|] eqn:Ht; [|done].
    injection Hf as <-. cbn. by exists c, t.
  - intros (c & t & Hc & Hty & Ht & Hn & Hg).
    exists (row_id r, c). split; [by apply elem_of_map_to_list|].
    rewrite Hty, Ht. cbn. destruct r; cbn in *. by subst.
Qed.

Lemma joined_rows_character_row srv d r :
  r ∈ joined_rows srv (Creatures d) (Characters d) <->
  character_row srv d (row_id r) = Some r.
Proof.
  rewrite elem_of_joined_rows. unfold character_row. split.
  - intros (c & t & -> & -> & -> & Hn & Hg). destruct r; cbn in *. by subst.
  - destruct (Creatures d !! row_id r) as [c|]; [|done].
    destruct (Characters d !! row_id r) as [t|]; [|done].
    destruct (text_eqb srv (creature_type c) "Character") eqn:Hty; [|done].
    intros [= <-]. by exists c, t.
Qed.

Lemma NoDup_joined_rows srv creatures characters :
  NoDup (row_id <$> joined_rows srv creatures characters).
Proof.
  unfold joined_rows.
  pose proof (NoDup_fst_map_to_list creatures) as Hnd.
  induction (map_to_list creatures) as [|[cid c] l IH]; cbn; [constructor|].
  cbn in Hnd. apply NoDup_cons in Hnd as [Hnotin Hnd].
  destruct (text_eqb srv (creature_type c) "Character"); [|by apply IH].
  destruct (characters !! cid) as [t|]; cbn; [|by apply IH].
  apply NoDup_cons. split; [|by apply IH].
  intros Hin. apply Hnotin. clear -Hin.
  apply list_elem_of_fmap in Hin as (r & -> & Hr).
  apply list_elem_of_omap in Hr as ([cid' c'] & Hin' & Hf).
  destruct (text_eqb srv (creature_type c') "Character"); [|done].
  destruct (characters !! cid'); [|done]. injection Hf as <-. cbn.
  apply list_elem_of_fmap. by exists (cid', c').
Qed.

Lemma fetch_all_generic_ready srv app w :
  ready w ->
  fetch_all_generic srv app w
  = (Returned (order_by_name srv (joined_rows srv (Creatures (db w)) (Characters (db w)))),
     after_call w (db w) [Close]).
Proof.
  destruct w as [d t c f l]. intros (Hc & Ht & Hf); cbn in *; subst.
  unfold after_call. by destruct app.
Qed.

Lemma fetch_all_generic_shape srv app w :
  db (snd (fetch_all_generic srv app w)) = db w /\
  match connection w with
  | Some false => fetch_all_generic srv app w = (Raised not_available, w)
  | None => fetch_all_generic srv app w = (Returned [], w)
  | Some true =>
      connection (snd (fetch_all_generic srv app w)) = Some false /\
      exists rows,
        fst (fetch_all_generic srv app w) = Returned rows /\
        forall err rest, faults w = Some err :: rest -> rows = []
  end.
Proof.
  destruct w as [d t c f l]. destruct app; unfold_crud; cbn.
  all: destruct c as [[|]|]; cbn; [|done|done].
  all: destruct f as [|[e|] f]; cbn; (split; [done|]); (split; [done|]).
  all: eexists; split; [reflexivity|]; intros err rest; by intros [=].
Qed.

(** ** Updating *)

(** Either the call reports success and the committed database is the
    updated one, or it does not and the committed database is untouched. *)
Lemma update_row_generic_cases app pk_val data w :
  let '(r, w') := update_row_generic app pk_val data w in
  (r = Returned true /\ db w' = updated pk_val data (db w)) \/
  (r <> Returned true /\ db w' = db w).
Proof.
  destruct w as [d t c f l]. destruct data as [name g]. unfold updated.
  destruct app; unfold_crud; cbn.
  all: destruct c as [[|]|]; cbn; [| by right | by right].
  all: destruct t as [d0|]; cbn; [by right|].
  all: destruct (truthy_name name); cbn.
  all: destruct g as [g|]; cbn.
  all: exec; try (by right); by left.
Qed.

Lemma update_row_generic_ready app pk_val data w :
  ready w ->
  update_row_generic app pk_val data w
  = (Returned true, after_call w (updated pk_val data (db w)) [StartTransaction; Commit; Close]).
Proof.
  destruct w as [d t c f l]. intros (Hc & Ht & Hf); cbn in *; subst.
  destruct data as [name g]. unfold after_call, updated.
  destruct app; unfold_crud; cbn.
  all: destruct (truthy_name name); cbn.
  all: destruct g as [g|]; cbn; rewrite <- ?app_assoc; reflexivity.
Qed.

Lemma updated_Creatures pk_val data d id :
  Creatures (updated pk_val data d) !! id
  = (if bool_decide (id = pk_val) && truthy_name (data_creature_name data)
     then set_creature_name (default "" (data_creature_name data)) <$> Creatures d !! id
     else Creatures d !! id).
Proof.
  unfold updated. destruct data as [name g]; cbn.
  destruct (truthy_name name), g; cbn; rewrite ?andb_false_r; try done.
  all: rewrite lookup_alter; case_bool_decide; case_decide; subst; done.
Qed.

Lemma updated_Characters pk_val data d id :
  Characters (updated pk_val data d) !! id
  = match data_gold data with
    | Some g => if bool_decide (id = pk_val)
                then set_gold g <$> Characters d !! id else Characters d !! id
    | None => Characters d !! id
    end.
Proof.
  unfold updated. destruct data as [name g]; cbn.
  destruct (truthy_name name), g; cbn; try done.
  all: rewrite lookup_alter; case_bool_decide; case_decide; subst; done.
Qed.

Lemma updated_rest pk_val data d :
  Races (updated pk_val data d) = Races d /\
  Classes (updated pk_val data d) = Classes d /\
  other_tables (updated pk_val data d) = other_tables d.
Proof.
  unfold updated. destruct data as [name g]; cbn.
  by destruct (truthy_name name), g.
Qed.

(** ** Deleting *)

Lemma clear_dependent_insert srv pk_val t name rows :
  t !! name = Some rows ->
  <[name := filter (fun row => owner srv name row <> pk_val) rows]> t
  = clear_dependent srv pk_val t name.
Proof.
  intros H. unfold clear_dependent. apply map_eq. intros k.
  destruct (decide (name = k)) as [<- | Hne].
  - by rewrite lookup_insert_eq, lookup_alter_eq, H.
  - by rewrite lookup_insert_ne, lookup_alter_ne.
Qed.

Lemma delete_row_generic_cases srv app pk_val w :
  let '(r, w') := delete_row_generic srv app pk_val w in
  (r = Returned true /\ db w' = deleted srv pk_val (db w)) \/
  (r <> Returned true /\ db w' = db w).
Proof.
  destruct w as [d t c f l]. unfold deleted, dependent_tables.
  destruct app; unfold_crud; cbn.
  all: destruct c as [[|]|]; cbn; [| by right | by right].
  all: destruct t as [d0|]; cbn; [by right|].
  all: exec; try (by right).
  all: left; split; [done|]; unfold with_other_tables, with_Characters, with_Creatures; cbn.
  all: f_equal.
  all: repeat (erewrite clear_dependent_insert by eassumption); reflexivity.
Qed.

Lemma delete_row_generic_ready srv app pk_val w :
  ready w ->
  fst (delete_row_generic srv app pk_val w) = Returned (dependents_exist (db w)) /\
  db (snd (delete_row_generic srv app pk_val w))
  = (if dependents_exist (db w) then deleted srv pk_val (db w) else db w).
Proof.
  intros Hr. assert (Hfst :
    fst (delete_row_generic srv app pk_val w) = Returned (dependents_exist (db w))).
  { destruct w as [d t c f l]. destruct Hr as (Hc & Ht & Hf); cbn in *; subst.
    unfold dependents_exist, dependent_tables.
    destruct d as [cr ch ra cls ot]; cbn.
    destruct app; unfold_crud; cbn.
    all: destruct (ot !! "Character_Classes") as [r1|] eqn:E1; cbn; [|reflexivity].
    all: rewrite lookup_insert_ne by done.
    all: destruct (ot !! "Character_Spells") as [r2|] eqn:E2; cbn; [|reflexivity].
    all: rewrite !lookup_insert_ne by done.
    all: destruct (ot !! "Character_Combats") as [r3|] eqn:E3; cbn; [|reflexivity].
    all: rewrite !lookup_insert_ne by done.
    all: destruct (ot !! "Inventory") as [r4|] eqn:E4; cbn; reflexivity. }
  split; [exact Hfst|].
  pose proof (delete_row_generic_cases srv app pk_val w) as Hcases.
  destruct (delete_row_generic srv app pk_val w) as [r w']; cbn [fst snd] in *. subst r.
  destruct (dependents_exist (db w));
    destruct Hcases as [[Hret Hdb] | [Hret Hdb]]; done.
Qed.

(** ** Inserting *)

Lemma elem_of_creatures_named srv name d cid :
  cid ∈ creatures_named srv name d <->
  exists c, Creatures d !! cid = Some c /\ text_eqb srv (creature_name c) name = true.
Proof.
  unfold creatures_named. rewrite list_elem_of_omap. split.
  - intros ([cid' c] & Hin & Hf). apply elem_of_map_to_list in Hin.
    destruct (text_eqb srv (creature_name c) name) eqn:Hn; [|done].
    injection Hf as <-. by exists c.
  - intros (c & Hc & Hn). exists (cid, c).
    split; [by apply elem_of_map_to_list|]. by rewrite Hn.
Qed.

Lemma head_take_1 {A} (l : list A) : head (take 1 l) = head l.
Proof. by destruct l. Qed.

(** The creature [LIMIT 1] picks, when exactly one has the name. *)
Lemma creatures_named_unique srv name d cid :
  cid ∈ creatures_named srv name d ->
  (forall id, id ∈ creatures_named srv name d -> id = cid) ->
  head (creatures_named srv name d) = Some cid.
Proof.
  destruct (creatures_named srv name d) as [|x l]; [by intros ?%elem_of_nil|].
  intros _ Hall. cbn. f_equal. apply Hall. by left.
Qed.

Lemma creatures_named_none srv name d :
  (forall id, id ∉ creatures_named srv name d) ->
  head (creatures_named srv name d) = None.
Proof.
  destruct (creatures_named srv name d) as [|x l]; [done|].
  intros Hall. exfalso. apply (Hall x). by left.
Qed.

(** Either the call reports success, the name is one of a creature and the
    committed database differs by the gold of that creature's row, or it
    does not report success and the committed database is untouched. *)
Lemma insert_row_generic_cases srv app data w :
  let '(r, w') := insert_row_generic srv app data w in
  (r = Returned true /\
   exists name cid,
     data_creature_name data = Some name /\ name <> "" /\
     head (creatures_named srv name (db w)) = Some cid /\
     db w' = with_Characters
               (alter (set_gold (default 0 (data_gold data))) cid (Characters (db w)))
               (db w)) \/
  (r <> Returned true /\ db w' = db w).
Proof.
  destruct w as [d t c f l]. destruct data as [name g].
  destruct app; unfold_crud; cbn.
  all: destruct c as [[|]|]; cbn; [| by right | by right].
  all: destruct t as [d0|]; cbn; [by right|].
  all: destruct name as [name|]; cbn; [|by right].
  all: destruct (String.eqb_spec name ""); cbn; [by right|].
  all: rewrite ?head_take_1.
  all: exec; try (by right).
  all: left; split; [done|]; eexists _, _; split; [done|]; split; [done|].
  all: rewrite ?head_take_1 in *; split; [eassumption|reflexivity].
Qed.

Lemma insert_row_generic_ready srv app data w :
  ready w ->
  insert_row_generic srv app data w
  = match data_creature_name data with
    | Some name =>
        if String.eqb name "" then
          (Returned false, after_call w (db w) [StartTransaction; Rollback; Close])
        else
          match head (creatures_named srv name (db w)) with
          | Some cid =>
              (Returned true,
               after_call w
                 (with_Characters
                    (alter (set_gold (default 0 (data_gold data))) cid (Characters (db w)))
                    (db w))
                 [StartTransaction; Commit; Close])
          | None =>
              (Returned false, after_call w (db w) [StartTransaction; Rollback; Close])
          end
    | None => (Returned false, after_call w (db w) [StartTransaction; Rollback; Close])
    end.
Proof.
  destruct w as [d t c f l]. intros (Hc & Ht & Hf); cbn in *; subst.
  destruct data as [name g]. unfold after_call.
  destruct app; unfold_crud; cbn.
  all: destruct name as [name|]; cbn; [|rewrite <- ?app_assoc; reflexivity].
  all: destruct (String.eqb name ""); cbn; [rewrite <- ?app_assoc; reflexivity|].
  all: rewrite head_take_1.
  all: destruct (head (creatures_named srv name d)); cbn;
       rewrite <- ?app_assoc; reflexivity.
Qed.

(** ** Calls in sequence *)

Lemma perform_closed srv app c d t f l :
  perform srv app c (mkWorld d t (Some false) f l)
  = (Some not_available, mkWorld d t (Some false) f l).
Proof. destruct c, app; reflexivity. Qed.

Lemma perform_closes srv app c w :
  connection w = Some true ->
  connection (snd (perform srv app c w)) = Some false.
Proof.
  destruct c.
  - intros Hc. pose proof (fetch_all_generic_shape srv app w) as [_ H].
    rewrite Hc in H. destruct H as [H _]. unfold perform.
    by destruct (fetch_all_generic srv app w).
  - destruct w as [d t c f l]; cbn. intros ->. destruct data as [name g].
    destruct app; unfold_crud; cbn.
    all: exec; reflexivity.
  - destruct w as [d t c f l]; cbn. intros ->. destruct data as [name g].
    destruct app; unfold_crud; cbn.
    all: exec; reflexivity.
  - destruct w as [d t c f l]; cbn. intros ->.
    destruct app; unfold_crud; cbn.
    all: exec; reflexivity.
  - intros Hc. pose proof (transfer_gold_closes_connection app from_id to_id amount w Hc).
    unfold perform. by destruct (transfer_gold app from_id to_id amount w).
Qed.

(** The byte order of strings is transitive. *)
Lemma String_leb_trans a b c :
  String.leb a b = true -> String.leb b c = true -> String.leb a c = true.
Proof.
  assert (Hle : forall x y, String.leb x y = true <-> String_as_OT.lt x y \/ x = y).
  { intros x y. unfold String.leb.
    pose proof (String_as_OT.cmp_lt x y) as Hlt.
    pose proof (String_as_OT.cmp_eq x y) as Heq.
    unfold String_as_OT.cmp in *.
    destruct (String.compare x y); split; intros H; try done.
    - right. by apply Heq.
    - left. by apply Hlt.
    - destruct H as [H | H]; [by apply Hlt in H | by apply Heq in H]. }
  rewrite !Hle. intros [H1 | ->] [H2 | ->]; auto.
  left. by apply String_as_OT.lt_trans with b.
Qed.

(** * Properties of the rest of the layer *)

(** ** fetch_all_generic *)

(** X1. On a ready world [fetch_all_generic] returns, once each, exactly the
    creatures of type 'Character' that have a row in [Characters], with the
    name of the creature and the gold of the character. *)
Theorem fetch_all_generic_lists_characters (srv : Schema) (app : App) (w : World) :
  ready w ->
  exists rows,
    fst (fetch_all_generic srv app w) = Returned rows /\
    (forall r, r ∈ rows <-> character_row srv (db w) (row_id r) = Some r) /\
    NoDup (row_id <$> rows).
Proof.
  intros Hr. rewrite (fetch_all_generic_ready _ _ _ Hr). eexists. split; [reflexivity|].
  unfold order_by_name. split.
  - intros r. rewrite merge_sort_Permutation. apply joined_rows_character_row.
  - rewrite merge_sort_Permutation. apply NoDup_joined_rows.
Qed.

Lemma fetch_all_generic_lists_characters_witness :
  exists rows,
    fst (fetch_all_generic sample_schema Steamliteapp_py (fresh party)) = Returned rows /\
    (forall r, r ∈ rows <-> character_row sample_schema (db (fresh party)) (row_id r) = Some r) /\
    NoDup (row_id <$> rows).
Proof.
  apply (fetch_all_generic_lists_characters sample_schema Steamliteapp_py (fresh party)).
  repeat split; reflexivity.
Defined.

(** X2. When the order of the collation is total and transitive, the rows
    [fetch_all_generic] returns on a ready world are sorted by name. *)
Theorem fetch_all_generic_sorted (srv : Schema) (app : App) (w : World) :
  ready w ->
  (forall a b, text_leb srv a b = true \/ text_leb srv b a = true) ->
  (forall a b c, text_leb srv a b = true -> text_leb srv b c = true ->
                 text_leb srv a c = true) ->
  exists rows,
    fst (fetch_all_generic srv app w) = Returned rows /\
    StronglySorted (name_le srv) rows.
Proof.
  intros Hr Htotal Htrans. rewrite (fetch_all_generic_ready _ _ _ Hr).
  eexists. split; [reflexivity|]. unfold order_by_name.
  assert (Total (name_le srv)).
  { intros a b. unfold name_le.
    destruct (Htotal (row_creature_name a) (row_creature_name b)) as [H | H];
      rewrite H; [by left | by right]. }
  assert (Transitive (name_le srv)).
  { intros a b c. unfold name_le. rewrite !Is_true_true. apply Htrans. }
  apply StronglySorted_merge_sort; assumption.
Qed.

Lemma fetch_all_generic_sorted_witness :
  exists rows,
    fst (fetch_all_generic sample_schema Steamlite_allapp_py (fresh party)) = Returned rows /\
    StronglySorted (name_le sample_schema) rows.
Proof.
  apply (fetch_all_generic_sorted sample_schema Steamlite_allapp_py (fresh party)).
  - repeat split; reflexivity.
  - intros a b. simpl. apply String.leb_total.
  - intros a b c. simpl. apply String_leb_trans.
Defined.

(** X3. Whatever the world and the outcome, [fetch_all_generic] leaves the
    committed database as it was. *)
Theorem fetch_all_generic_read_only (srv : Schema) (app : App) (w : World) :
  db (snd (fetch_all_generic srv app w)) = db w.
Proof. apply fetch_all_generic_shape. Qed.

(** X4. When the server refuses the query, [fetch_all_generic] on a
    connected connection does not raise: it returns the empty list, the
    answer it gives for a database without characters. *)
Theorem fetch_all_generic_error_is_empty
    (srv : Schema) (app : App) (w : World) (err : string) (rest : list (option string)) :
  connection w = Some true ->
  faults w = Some err :: rest ->
  fst (fetch_all_generic srv app w) = Returned [].
Proof.
  intros Hc Hf. pose proof (fetch_all_generic_shape srv app w) as [_ H].
  rewrite Hc in H. destruct H as (_ & rows & Hrows & Hempty).
  rewrite Hrows. f_equal. by eapply Hempty.
Qed.

Lemma fetch_all_generic_error_is_empty_witness :
  fst (fetch_all_generic sample_schema Steamliteapp_py
         (set_faults [Some "2013: Lost connection to MySQL server during query"]
                     (fresh party)))
  = Returned [].
Proof.
  apply (fetch_all_generic_error_is_empty sample_schema Steamliteapp_py _
           "2013: Lost connection to MySQL server during query" []).
  - reflexivity.
  - reflexivity.
Defined.

(** ** Two calls on the cached connection *)

(** X5. Each function of the layer closes the connection that
    [get_connection] keeps in its cache: after any call made on a connected
    connection, the next call, whichever it is, raises
    "MySQL Connection not available." and leaves the world as it found it. *)
Theorem second_call_raises
    (srv : Schema) (app app' : App) (c1 c2 : Call) (w : World) :
  connection w = Some true ->
  perform srv app' c2 (snd (perform srv app c1 w))
  = (Some not_available, snd (perform srv app c1 w)).
Proof.
  intros Hc. pose proof (perform_closes srv app c1 w Hc) as H.
  destruct (snd (perform srv app c1 w)) as [d t c f l]. cbn in H. subst c.
  apply perform_closed.
Qed.

Lemma second_call_raises_witness :
  perform sample_schema Steamliteapp_py (call_transfer_gold 1 2 30)
    (snd (perform sample_schema Steamliteapp_py call_fetch_all (fresh party)))
  = (Some not_available,
     snd (perform sample_schema Steamliteapp_py call_fetch_all (fresh party))).
Proof.
  apply (second_call_raises sample_schema Steamliteapp_py Steamliteapp_py
           call_fetch_all (call_transfer_gold 1 2 30) (fresh party)).
  reflexivity.
Defined.

(** ** The claims about a transfer, on the cached connection *)

(** C1.  A transfer in which both characters exist, differ, the amount is
    positive and the source holds at least the amount does not return
    [ok = True] once the process has made a call: every function of the
    layer, the [fetch_all_generic] of the page included, closes in its
    [finally] the connection that [get_connection] keeps in its cache, and on
    that connection [conn.cursor()], which stands before the [try], raises
    "MySQL Connection not available.".  The source and the destination keep
    the gold they had. *)
Theorem valid_transfer_after_call_raises
    (srv : Schema) (app : App) (c : Call) (w : World)
    (from_id to_id amount from_gold to_gold : Z) :
  connection w = Some true ->
  gold_of (db (snd (perform srv app c w))) from_id = Some from_gold ->
  gold_of (db (snd (perform srv app c w))) to_id = Some to_gold ->
  from_id <> to_id -> 0 < amount -> amount <= from_gold ->
  exists w2,
    transfer_gold app from_id to_id amount (snd (perform srv app c w))
    = (Raised not_available, w2) /\
    gold_of (db w2) from_id = Some from_gold /\
    gold_of (db w2) to_id = Some to_gold /\
    gold_of (db w2) from_id <> Some (from_gold - amount).
Proof.
  intros Hc Hf Ht _ Hpos _. pose proof (perform_closes srv app c w Hc) as H.
  destruct (snd (perform srv app c w)) as [d t c' f l]. cbn in H. subst c'.
  rewrite transfer_gold_closed. eexists. split; [reflexivity|].
  split; [exact Hf|]. split; [exact Ht|].
  rewrite Hf. intros [= Heq]. lia.
Qed.

(** The page has listed Aria (1, 100 gold) and Borin (2, 50 gold); the
    button then asks for 30 gold from Aria to Borin. *)
Lemma valid_transfer_after_call_raises_witness :
  exists w2,
    transfer_gold Steamliteapp_py 1 2 30
      (snd (perform sample_schema Steamliteapp_py call_fetch_all (fresh party)))
    = (Raised not_available, w2) /\
    gold_of (db w2) 1 = Some 100 /\
    gold_of (db w2) 2 = Some 50 /\
    gold_of (db w2) 1 <> Some (100 - 30).
Proof.
  apply (valid_transfer_after_call_raises sample_schema Steamliteapp_py
           call_fetch_all (fresh party) 1 2 30 100 50).
  - reflexivity.
  - vm_compute. reflexivity.
  - vm_compute. reflexivity.
  - lia.
  - lia.
  - lia.
Defined.

(** C8.  A transfer in which one of the two characters has no row does not
    return the not-found pair once the process has made a call: it raises
    "MySQL Connection not available." from [conn.cursor()], which stands
    before the [try], because every function of the layer closes in its
    [finally] the connection that [get_connection] keeps in its cache.  No
    statement is run and the world is what it was. *)
Theorem missing_character_after_call_raises
    (srv : Schema) (app : App) (c : Call) (w : World) (from_id to_id amount : Z) :
  connection w = Some true ->
  gold_of (db (snd (perform srv app c w))) from_id = None \/
  gold_of (db (snd (perform srv app c w))) to_id = None ->
  transfer_gold app from_id to_id amount (snd (perform srv app c w))
  = (Raised not_available, snd (perform srv app c w))
  /\ forall ok msg w2,
       transfer_gold app from_id to_id amount (snd (perform srv app c w))
       <> (Returned (ok, msg), w2).
Proof.
  intros Hc _. pose proof (perform_closes srv app c w Hc) as H.
  destruct (snd (perform srv app c w)) as [d t c' f l]. cbn in H. subst c'.
  rewrite transfer_gold_closed. split; [reflexivity | discriminate].
Qed.

(** Borin (2) has just been deleted on this page; a transfer to him follows. *)
Lemma missing_character_after_call_raises_witness :
  transfer_gold Steamlite_allapp_py 1 2 10
    (snd (perform sample_schema Steamlite_allapp_py (call_delete_row 2) (fresh party)))
  = (Raised not_available,
     snd (perform sample_schema Steamlite_allapp_py (call_delete_row 2) (fresh party)))
  /\ forall ok msg w2,
       transfer_gold Steamlite_allapp_py 1 2 10
         (snd (perform sample_schema Steamlite_allapp_py (call_delete_row 2) (fresh party)))
       <> (Returned (ok, msg), w2).
Proof.
  apply (missing_character_after_call_raises sample_schema Steamlite_allapp_py
           (call_delete_row 2) (fresh party) 1 2 10).
  - reflexivity.
  - right. vm_compute. reflexivity.
Defined.

(** ** update_row_generic *)

(** X6. On a ready world [update_row_generic] returns [True]; afterwards the
    creature [pk_val], if it exists, has the new name when
    [data["creature_name"]] is a non-empty text, the character [pk_val], if
    it exists, has the new gold when [data["gold"]] is given, and every
    other row and table is as it was. *)
Theorem update_row_generic_sets_fields
    (app : App) (pk_val : Z) (data : Data) (w : World) :
  ready w ->
  let d' := db (snd (update_row_generic app pk_val data w)) in
  fst (update_row_generic app pk_val data w) = Returned true /\
  Creatures d' !! pk_val
  = (if truthy_name (data_creature_name data)
     then set_creature_name (default "" (data_creature_name data))
            <$> Creatures (db w) !! pk_val
     else Creatures (db w) !! pk_val) /\
  Characters d' !! pk_val
  = match data_gold data with
    | Some g => set_gold g <$> Characters (db w) !! pk_val
    | None => Characters (db w) !! pk_val
    end /\
  (forall id, id <> pk_val ->
     Creatures d' !! id = Creatures (db w) !! id /\
     Characters d' !! id = Characters (db w) !! id) /\
  Races d' = Races (db w) /\ Classes d' = Classes (db w) /\
  other_tables d' = other_tables (db w).
Proof.
  intros Hr. cbv zeta. rewrite (update_row_generic_ready _ _ _ _ Hr). cbn [fst snd db after_call].
  split; [reflexivity|]. split; [|split; [|split]].
  - rewrite updated_Creatures. by rewrite bool_decide_eq_true_2.
  - rewrite updated_Characters. destruct (data_gold data); [|done].
    by rewrite bool_decide_eq_true_2.
  - intros id Hne. rewrite updated_Creatures, updated_Characters.
    rewrite bool_decide_eq_false_2 by done. cbn. by destruct (data_gold data).
  - apply updated_rest.
Qed.

Lemma update_row_generic_sets_fields_witness :
  let d' := db (snd (update_row_generic Steamliteapp_py 2
                       (mkData (Some "Zed") (Some 10)) (fresh party))) in
  fst (update_row_generic Steamliteapp_py 2 (mkData (Some "Zed") (Some 10)) (fresh party))
  = Returned true /\
  Creatures d' !! 2
  = (if truthy_name (Some "Zed")
     then set_creature_name "Zed" <$> Creatures (db (fresh party)) !! 2
     else Creatures (db (fresh party)) !! 2) /\
  Characters d' !! 2 = set_gold 10 <$> Characters (db (fresh party)) !! 2 /\
  (forall id, id <> 2 ->
     Creatures d' !! id = Creatures (db (fresh party)) !! id /\
     Characters d' !! id = Characters (db (fresh party)) !! id) /\
  Races d' = Races (db (fresh party)) /\ Classes d' = Classes (db (fresh party)) /\
  other_tables d' = other_tables (db (fresh party)).
Proof.
  apply (update_row_generic_sets_fields Steamliteapp_py 2
           (mkData (Some "Zed") (Some 10)) (fresh party)).
  repeat split; reflexivity.
Defined.

Lemma alter_missing {K A} `{Countable K} (f : A -> A) (m : gmap K A) k :
  m !! k = None -> alter f k m = m.
Proof.
  intros Hk. apply map_eq. intros j. rewrite lookup_alter.
  case_decide; subst; by rewrite ?Hk.
Qed.

(** X7. A key that is neither a creature nor a character is not reported:
    on a ready world [update_row_generic] returns [True] and the committed
    database is what it was. *)
Theorem update_row_generic_missing_key
    (app : App) (pk_val : Z) (data : Data) (w : World) :
  ready w ->
  Creatures (db w) !! pk_val = None ->
  Characters (db w) !! pk_val = None ->
  fst (update_row_generic app pk_val data w) = Returned true /\
  db (snd (update_row_generic app pk_val data w)) = db w.
Proof.
  intros Hr Hcr Hch. rewrite (update_row_generic_ready _ _ _ _ Hr).
  cbn [fst snd db after_call]. split; [reflexivity|].
  destruct (db w) as [cr ch ra cls ot]; cbn in *.
  unfold updated, with_Creatures, with_Characters; cbn.
  destruct (truthy_name (data_creature_name data)), (data_gold data); cbn;
    rewrite ?alter_missing by assumption; reflexivity.
Qed.

Lemma update_row_generic_missing_key_witness :
  fst (update_row_generic Steamlite_allapp_py 9 (mkData (Some "Nobody") (Some 5))
         (fresh party)) = Returned true /\
  db (snd (update_row_generic Steamlite_allapp_py 9 (mkData (Some "Nobody") (Some 5))
             (fresh party))) = db (fresh party).
Proof.
  apply (update_row_generic_missing_key Steamlite_allapp_py 9
           (mkData (Some "Nobody") (Some 5)) (fresh party)).
  - repeat split; reflexivity.
  - reflexivity.
  - reflexivity.
Defined.

(** X8. [update_row_generic] is all or nothing: from any world, either it
    returns [True] and both updates are committed, or the committed database
    is what it was; a name that was written is not kept when the update of
    the gold fails. *)
Theorem update_row_generic_all_or_nothing
    (app : App) (pk_val : Z) (data : Data) (w : World) :
  (fst (update_row_generic app pk_val data w) = Returned true /\
   db (snd (update_row_generic app pk_val data w)) = updated pk_val data (db w)) \/
  (fst (update_row_generic app pk_val data w) <> Returned true /\
   db (snd (update_row_generic app pk_val data w)) = db w).
Proof.
  pose proof (update_row_generic_cases app pk_val data w) as H.
  by destruct (update_row_generic app pk_val data w).
Qed.

(** The second statement of an update fails: the first is rolled back. *)
Example update_row_generic_rolls_back_name :
  let w := set_faults [None; Some "1205 (HY000): Lock wait timeout exceeded"] (fresh party) in
  fst (update_row_generic Steamliteapp_py 2 (mkData (Some "Zed") (Some 10)) w)
  = Returned false
  /\ creature_name <$> Creatures (db (snd (update_row_generic Steamliteapp_py 2
                                             (mkData (Some "Zed") (Some 10)) w))) !! 2
     = Some "Borin".
Proof. split; reflexivity. Qed.

(** X9. What was written is what is read: after an update of a listed
    character with a non-empty name and a gold value, [fetch_all_generic] on
    a new connection lists the character with that name and that gold. *)
Theorem update_then_fetch
    (srv : Schema) (app app' : App) (pk_val : Z) (name : string) (g : Z)
    (r : Row) (w : World) :
  ready w ->
  character_row srv (db w) pk_val = Some r ->
  name <> "" ->
  exists rows,
    fst (fetch_all_generic srv app'
           (fresh (db (snd (update_row_generic app pk_val
                              (mkData (Some name) (Some g)) w)))))
    = Returned rows /\
    mkRow pk_val name g ∈ rows.
Proof.
  intros Hr Hrow Hname.
  rewrite (update_row_generic_ready _ _ _ _ Hr). cbn [snd db after_call].
  rewrite (fetch_all_generic_ready _ _ _ (ready_fresh _)).
  eexists. split; [reflexivity|]. cbn [db fresh].
  unfold order_by_name. rewrite merge_sort_Permutation.
  apply joined_rows_character_row. cbn [row_id].
  unfold character_row in *.
  rewrite updated_Creatures, updated_Characters.
  cbn [data_creature_name data_gold].
  rewrite bool_decide_eq_true_2 by done.
  assert (truthy_name (Some name) = true) as ->.
  { cbn. by destruct (String.eqb_spec name ""). }
  cbn.
  destruct (Creatures (db w) !! pk_val) as [c|]; [|done].
  destruct (Characters (db w) !! pk_val) as [t|]; [|done]. cbn.
  by destruct (text_eqb srv (creature_type c) "Character").
Qed.

Lemma update_then_fetch_witness :
  exists rows,
    fst (fetch_all_generic sample_schema Steamliteapp_py
           (fresh (db (snd (update_row_generic Steamliteapp_py 2
                              (mkData (Some "Zed") (Some 10)) (fresh party))))))
    = Returned rows /\
    mkRow 2 "Zed" 10 ∈ rows.
Proof.
  apply (update_then_fetch sample_schema Steamliteapp_py Steamliteapp_py 2 "Zed" 10
           (mkRow 2 "Borin" 50) (fresh party)).
  - repeat split; reflexivity.
  - reflexivity.
  - discriminate.
Defined.

Lemma alter_twice {K A} `{Countable K} (f : A -> A) (m : gmap K A) k :
  (forall x, f (f x) = f x) -> alter f k (alter f k m) = alter f k m.
Proof.
  intros Hf. apply map_eq. intros j. destruct (decide (k = j)) as [<- | Hne].
  - rewrite !lookup_alter_eq. destruct (m !! k); cbn; by rewrite ?Hf.
  - by rewrite !lookup_alter_ne.
Qed.

(** X10. Updating twice with the same data is updating once: the second
    update, made on a new connection, leaves the committed database as the
    first one left it. *)
Theorem update_row_generic_idempotent
    (app : App) (pk_val : Z) (data : Data) (w : World) :
  ready w ->
  db (snd (update_row_generic app pk_val data
             (fresh (db (snd (update_row_generic app pk_val data w))))))
  = db (snd (update_row_generic app pk_val data w)).
Proof.
  intros Hr. rewrite (update_row_generic_ready _ _ _ _ Hr). cbn [snd db after_call].
  rewrite (update_row_generic_ready _ _ _ _ (ready_fresh _)). cbn [snd db after_call fresh].
  destruct (db w) as [cr ch ra cls ot].
  unfold updated, with_Creatures, with_Characters; cbn.
  destruct (truthy_name (data_creature_name data)), (data_gold data); cbn;
    rewrite ?alter_twice by done; reflexivity.
Qed.

Lemma update_row_generic_idempotent_witness :
  db (snd (update_row_generic Steamliteapp_py 2 (mkData (Some "Zed") (Some 10))
             (fresh (db (snd (update_row_generic Steamliteapp_py 2
                                (mkData (Some "Zed") (Some 10)) (fresh party)))))))
  = db (snd (update_row_generic Steamliteapp_py 2 (mkData (Some "Zed") (Some 10))
               (fresh party))).
Proof.
  apply (update_row_generic_idempotent Steamliteapp_py 2
           (mkData (Some "Zed") (Some 10)) (fresh party)).
  repeat split; reflexivity.
Defined.

(** ** delete_row_generic *)

Lemma deleted_other_tables srv pk_val d name :
  other_tables (deleted srv pk_val d) !! name
  = (if bool_decide (name ∈ dependent_tables)
     then filter (fun row => owner srv name row <> pk_val) <$> other_tables d !! name
     else other_tables d !! name).
Proof.
  unfold deleted, dependent_tables, clear_dependent; cbn.
  rewrite !lookup_alter.
  case_bool_decide as Hin.
  - rewrite !elem_of_cons in Hin.
    destruct Hin as [-> | [-> | [-> | [-> | Hin]]]];
      [| | | | by apply elem_of_nil in Hin];
      repeat case_decide; try done; by destruct (other_tables d !! _).
  - rewrite !not_elem_of_cons in Hin. destruct Hin as (? & ? & ? & ? & _).
    repeat case_decide; congruence.
Qed.

(** X11. On a ready world in which the four dependent tables exist,
    [delete_row_generic] returns [True]; afterwards neither [Creatures] nor
    [Characters] has a row for [pk_val], and no row of a dependent table
    belongs to it. *)
Theorem delete_row_generic_removes
    (srv : Schema) (app : App) (pk_val : Z) (w : World) :
  ready w ->
  dependents_exist (db w) = true ->
  let d' := db (snd (delete_row_generic srv app pk_val w)) in
  fst (delete_row_generic srv app pk_val w) = Returned true /\
  Creatures d' !! pk_val = None /\
  Characters d' !! pk_val = None /\
  (forall name rows row,
     name ∈ dependent_tables -> other_tables d' !! name = Some rows ->
     row ∈ rows -> owner srv name row <> pk_val).
Proof.
  intros Hr Hex. cbv zeta.
  destruct (delete_row_generic_ready srv app pk_val w Hr) as [-> ->]. rewrite Hex.
  split; [reflexivity|]. split; [apply lookup_delete_eq|]. split; [apply lookup_delete_eq|].
  intros name rows row Hin Hrows Hrow. rewrite deleted_other_tables in Hrows.
  rewrite bool_decide_eq_true_2 in Hrows by done.
  destruct (other_tables (db w) !! name) as [rows0|]; [|done].
  injection Hrows as <-. by apply list_elem_of_filter in Hrow as [? _].
Qed.

Lemma delete_row_generic_removes_witness :
  let d' := db (snd (delete_row_generic sample_schema Steamliteapp_py 2 (fresh party))) in
  fst (delete_row_generic sample_schema Steamliteapp_py 2 (fresh party)) = Returned true /\
  Creatures d' !! 2 = None /\
  Characters d' !! 2 = None /\
  (forall name rows row,
     name ∈ dependent_tables -> other_tables d' !! name = Some rows ->
     row ∈ rows -> owner sample_schema name row <> 2).
Proof.
  apply (delete_row_generic_removes sample_schema Steamliteapp_py 2 (fresh party)).
  - repeat split; reflexivity.
  - reflexivity.
Defined.

(** X12. The same call touches nothing else: the other creatures and
    characters, [Races], [Classes] and the tables it does not name are as
    they were, and a dependent table loses the rows of [pk_val] only. *)
Theorem delete_row_generic_frame
    (srv : Schema) (app : App) (pk_val : Z) (w : World) :
  ready w ->
  dependents_exist (db w) = true ->
  let d' := db (snd (delete_row_generic srv app pk_val w)) in
  (forall id, id <> pk_val ->
     Creatures d' !! id = Creatures (db w) !! id /\
     Characters d' !! id = Characters (db w) !! id) /\
  Races d' = Races (db w) /\ Classes d' = Classes (db w) /\
  (forall name, name ∉ dependent_tables ->
     other_tables d' !! name = other_tables (db w) !! name) /\
  (forall name, name ∈ dependent_tables ->
     other_tables d' !! name
     = filter (fun row => owner srv name row <> pk_val) <$> other_tables (db w) !! name).
Proof.
  intros Hr Hex. cbv zeta.
  destruct (delete_row_generic_ready srv app pk_val w Hr) as [_ ->]. rewrite Hex.
  split; [|split; [done|split; [done|split]]].
  - intros id Hne. cbn. by rewrite !lookup_delete_ne.
  - intros name Hn. rewrite deleted_other_tables. by rewrite bool_decide_eq_false_2.
  - intros name Hn. rewrite deleted_other_tables. by rewrite bool_decide_eq_true_2.
Qed.

Lemma delete_row_generic_frame_witness :
  let d' := db (snd (delete_row_generic sample_schema Steamliteapp_py 2 (fresh party))) in
  (forall id, id <> 2 ->
     Creatures d' !! id = Creatures (db (fresh party)) !! id /\
     Characters d' !! id = Characters (db (fresh party)) !! id) /\
  Races d' = Races (db (fresh party)) /\ Classes d' = Classes (db (fresh party)) /\
  (forall name, name ∉ dependent_tables ->
     other_tables d' !! name = other_tables (db (fresh party)) !! name) /\
  (forall name, name ∈ dependent_tables ->
     other_tables d' !! name
     = filter (fun row => owner sample_schema name row <> 2)
         <$> other_tables (db (fresh party)) !! name).
Proof.
  apply (delete_row_generic_frame sample_schema Steamliteapp_py 2 (fresh party)).
  - repeat split; reflexivity.
  - reflexivity.
Defined.

(** X13. [delete_row_generic] is all or nothing: from any world, either it
    returns [True] and every deletion is committed, or the committed
    database is what it was. *)
Theorem delete_row_generic_all_or_nothing
    (srv : Schema) (app : App) (pk_val : Z) (w : World) :
  (fst (delete_row_generic srv app pk_val w) = Returned true /\
   db (snd (delete_row_generic srv app pk_val w)) = deleted srv pk_val (db w)) \/
  (fst (delete_row_generic srv app pk_val w) <> Returned true /\
   db (snd (delete_row_generic srv app pk_val w)) = db w).
Proof.
  pose proof (delete_row_generic_cases srv app pk_val w) as H.
  by destruct (delete_row_generic srv app pk_val w).
Qed.

(** The last [DELETE] fails: the five before it are rolled back. *)
Example delete_row_generic_rolls_back :
  let w := set_faults [None; None; None; None; None; Some "1213 (40001): Deadlock found"]
             (fresh party) in
  fst (delete_row_generic sample_schema Steamliteapp_py 2 w) = Returned false
  /\ gold_of (db (snd (delete_row_generic sample_schema Steamliteapp_py 2 w))) 2 = Some 50
  /\ other_tables (db (snd (delete_row_generic sample_schema Steamliteapp_py 2 w)))
       !! "Inventory" = Some [["2"; "Axe"]; ["3"; "Club"]].
Proof. repeat split; reflexivity. Qed.

(** X14. When one of the four dependent tables does not exist, on a ready
    world [delete_row_generic] returns [False] and deletes nothing. *)
Theorem delete_row_generic_missing_table
    (srv : Schema) (app : App) (pk_val : Z) (w : World) :
  ready w ->
  dependents_exist (db w) = false ->
  fst (delete_row_generic srv app pk_val w) = Returned false /\
  db (snd (delete_row_generic srv app pk_val w)) = db w.
Proof.
  intros Hr Hex. destruct (delete_row_generic_ready srv app pk_val w Hr) as [-> ->].
  by rewrite Hex.
Qed.

Lemma delete_row_generic_missing_table_witness :
  fst (delete_row_generic sample_schema Steamliteapp_py 1 (fresh bank)) = Returned false /\
  db (snd (delete_row_generic sample_schema Steamliteapp_py 1 (fresh bank)))
  = db (fresh bank).
Proof.
  apply (delete_row_generic_missing_table sample_schema Steamliteapp_py 1 (fresh bank)).
  - repeat split; reflexivity.
  - reflexivity.
Defined.

(** X15. A deleted character can no longer send or receive gold: after a
    successful [delete_row_generic], [transfer_gold] on a new connection,
    from or to the deleted id, returns [False] with the message of the
    missing character and changes nothing. *)
Theorem delete_then_transfer_gold
    (srv : Schema) (app app' : App) (pk_val other amount : Z) (w : World) :
  ready w ->
  dependents_exist (db w) = true ->
  let d' := db (snd (delete_row_generic srv app pk_val w)) in
  (fst (transfer_gold app' pk_val other amount (fresh d'))
   = Returned (false, "Gold transfer failed: One of the selected characters does not exist.")
   /\ db (snd (transfer_gold app' pk_val other amount (fresh d'))) = d') /\
  (fst (transfer_gold app' other pk_val amount (fresh d'))
   = Returned (false, "Gold transfer failed: One of the selected characters does not exist.")
   /\ db (snd (transfer_gold app' other pk_val amount (fresh d'))) = d').
Proof.
  intros Hr Hex. cbv zeta.
  destruct (delete_row_generic_ready srv app pk_val w Hr) as [_ ->]. rewrite Hex.
  rewrite !(transfer_gold_ready_outcome _ _ _ _ _ (ready_fresh _)).
  assert (gold_of (db (fresh (deleted srv pk_val (db w)))) pk_val = None) as ->.
  { unfold gold_of; cbn. by rewrite lookup_delete_eq. }
  split.
  - done.
  - by destruct (gold_of (db (fresh (deleted srv pk_val (db w)))) other).
Qed.

Lemma delete_then_transfer_gold_witness :
  let d' := db (snd (delete_row_generic sample_schema Steamliteapp_py 2 (fresh party))) in
  (fst (transfer_gold Steamliteapp_py 2 1 10 (fresh d'))
   = Returned (false, "Gold transfer failed: One of the selected characters does not exist.")
   /\ db (snd (transfer_gold Steamliteapp_py 2 1 10 (fresh d'))) = d') /\
  (fst (transfer_gold Steamliteapp_py 1 2 10 (fresh d'))
   = Returned (false, "Gold transfer failed: One of the selected characters does not exist.")
   /\ db (snd (transfer_gold Steamliteapp_py 1 2 10 (fresh d'))) = d').
Proof.
  apply (delete_then_transfer_gold sample_schema Steamliteapp_py Steamliteapp_py
           2 1 10 (fresh party)).
  - repeat split; reflexivity.
  - reflexivity.
Defined.

(** X16. After a successful [delete_row_generic], [fetch_all_generic] on a
    new connection lists the characters it listed before, less the deleted
    one. *)
Theorem delete_then_fetch
    (srv : Schema) (app app' : App) (pk_val : Z) (w : World) :
  ready w ->
  dependents_exist (db w) = true ->
  exists rows,
    fst (fetch_all_generic srv app'
           (fresh (db (snd (delete_row_generic srv app pk_val w))))) = Returned rows /\
    forall r, r ∈ rows <->
              character_row srv (db w) (row_id r) = Some r /\ row_id r <> pk_val.
Proof.
  intros Hr Hex.
  destruct (delete_row_generic_ready srv app pk_val w Hr) as [_ ->]. rewrite Hex.
  rewrite (fetch_all_generic_ready _ _ _ (ready_fresh _)).
  eexists. split; [reflexivity|]. intros r. cbn [db fresh].
  unfold order_by_name. rewrite merge_sort_Permutation.
  rewrite joined_rows_character_row. unfold character_row; cbn.
  destruct (decide (row_id r = pk_val)) as [-> | Hne].
  - rewrite !lookup_delete_eq. split; [done | by intros [_ ?]].
  - rewrite !lookup_delete_ne by done. split; [done | by intros [? _]].
Qed.

Lemma delete_then_fetch_witness :
  exists rows,
    fst (fetch_all_generic sample_schema Steamliteapp_py
           (fresh (db (snd (delete_row_generic sample_schema Steamliteapp_py 2
                              (fresh party)))))) = Returned rows /\
    forall r, r ∈ rows <->
              character_row sample_schema (db (fresh party)) (row_id r) = Some r /\
              row_id r <> 2.
Proof.
  apply (delete_then_fetch sample_schema Steamliteapp_py Steamliteapp_py 2 (fresh party)).
  - repeat split; reflexivity.
  - reflexivity.
Defined.

(** ** insert_row_generic *)

(** X17. Without a name, or with the empty name, [insert_row_generic]
    returns [False] on every connection that is not closed, and the
    committed database is what it was. *)
Theorem insert_row_generic_requires_name
    (srv : Schema) (app : App) (data : Data) (w : World) :
  truthy_name (data_creature_name data) = false ->
  connection w <> Some false ->
  fst (insert_row_generic srv app data w) = Returned false /\
  db (snd (insert_row_generic srv app data w)) = db w.
Proof.
  intros Hname Hc. destruct w as [d t c f l], data as [name g]; cbn in *.
  destruct c as [[|]|]; [| done |].
  all: destruct app; unfold_crud; cbn.
  all: rewrite ?Hname; cbn.
  all: destruct t; cbn; done.
Qed.

Lemma insert_row_generic_requires_name_witness :
  fst (insert_row_generic sample_schema Steamliteapp_py (mkData (Some "") (Some 100))
         (fresh party)) = Returned false /\
  db (snd (insert_row_generic sample_schema Steamliteapp_py (mkData (Some "") (Some 100))
             (fresh party))) = db (fresh party).
Proof.
  apply (insert_row_generic_requires_name sample_schema Steamliteapp_py
           (mkData (Some "") (Some 100)) (fresh party)).
  - reflexivity.
  - discriminate.
Defined.

(** X18. With the name of an existing creature, [insert_row_generic] on a
    ready world inserts nothing and returns [True]: it sets the gold of the
    character row of one creature of that name (to 0 when the data have no
    gold), a row that need not exist, and leaves every other row and table
    as it was. *)
Theorem insert_row_generic_existing_name
    (srv : Schema) (app : App) (name : string) (gold_given : option Z) (w : World) :
  ready w ->
  name <> "" ->
  (exists id c, Creatures (db w) !! id = Some c /\
                text_eqb srv (creature_name c) name = true) ->
  let d' := db (snd (insert_row_generic srv app (mkData (Some name) gold_given) w)) in
  fst (insert_row_generic srv app (mkData (Some name) gold_given) w) = Returned true /\
  exists cid c,
    Creatures (db w) !! cid = Some c /\
    text_eqb srv (creature_name c) name = true /\
    Characters d' !! cid = set_gold (default 0 gold_given) <$> Characters (db w) !! cid /\
    (forall id, id <> cid -> Characters d' !! id = Characters (db w) !! id) /\
    Creatures d' = Creatures (db w) /\ Races d' = Races (db w) /\
    Classes d' = Classes (db w) /\ other_tables d' = other_tables (db w).
Proof.
  intros Hr Hname (id & c & Hc & Heq). cbv zeta.
  rewrite (insert_row_generic_ready _ _ _ _ Hr). cbn [data_creature_name data_gold].
  destruct (String.eqb_spec name ""); [done|].
  destruct (head (creatures_named srv name (db w))) as [cid|] eqn:Hhead.
  - cbn [fst snd db after_call]. split; [reflexivity|].
    assert (cid ∈ creatures_named srv name (db w)) as Hin.
    { destruct (creatures_named srv name (db w)); [done|].
      injection Hhead as ->. by left. }
    apply elem_of_creatures_named in Hin as (c' & Hc' & Heq').
    exists cid, c'. split; [done|]. split; [done|]. cbn. split; [|split; [|done]].
    + by rewrite lookup_alter_eq.
    + intros id' Hne. by rewrite lookup_alter_ne.
  - exfalso. assert (id ∈ creatures_named srv name (db w)) as Hin.
    { apply elem_of_creatures_named. by exists c. }
    destruct (creatures_named srv name (db w)); [by apply elem_of_nil in Hin | done].
Qed.

Lemma insert_row_generic_existing_name_witness :
  let d' := db (snd (insert_row_generic sample_schema Steamliteapp_py
                       (mkData (Some "Aria") (Some 10)) (fresh party))) in
  (fst (insert_row_generic sample_schema Steamliteapp_py
          (mkData (Some "Aria") (Some 10)) (fresh party)) = Returned true /\
   exists cid c,
     Creatures (db (fresh party)) !! cid = Some c /\
     text_eqb sample_schema (creature_name c) "Aria" = true /\
     Characters d' !! cid
     = set_gold (default 0 (Some 10)) <$> Characters (db (fresh party)) !! cid /\
     (forall id, id <> cid -> Characters d' !! id = Characters (db (fresh party)) !! id) /\
     Creatures d' = Creatures (db (fresh party)) /\ Races d' = Races (db (fresh party)) /\
     Classes d' = Classes (db (fresh party)) /\
     other_tables d' = other_tables (db (fresh party)))
  /\ gold_of (db (fresh party)) 1 = Some 100
  /\ gold_of d' 1 = Some 10.
Proof.
  split; [|split; vm_compute; reflexivity].
  apply (insert_row_generic_existing_name sample_schema Steamliteapp_py "Aria"
           (Some 10) (fresh party)).
  - repeat split; reflexivity.
  - discriminate.
  - exists 1, (adventurer "Aria").
    split; reflexivity.
Defined.

(** X19. [insert_row_generic] never adds a row: whatever the data, the world
    and the outcome, [Creatures], [Races], [Classes] and the other tables
    are as they were and [Characters] has the same keys with the same
    [race_id] and [class_id].  (A new name gets as far as the [SELECT] of
    the default race, whose result is never fetched: the next statement is
    refused and the insertion into [Creatures] is rolled back.) *)
Theorem insert_row_generic_adds_no_row
    (srv : Schema) (app : App) (data : Data) (w : World) :
  let d' := db (snd (insert_row_generic srv app data w)) in
  Creatures d' = Creatures (db w) /\ Races d' = Races (db w) /\
  Classes d' = Classes (db w) /\ other_tables d' = other_tables (db w) /\
  (forall id, race_id <$> Characters d' !! id = race_id <$> Characters (db w) !! id) /\
  (forall id, class_id <$> Characters d' !! id = class_id <$> Characters (db w) !! id).
Proof.
  cbv zeta. pose proof (insert_row_generic_cases srv app data w) as H.
  destruct (insert_row_generic srv app data w) as [r w']. cbn [snd].
  destruct H as [(_ & name & cid & _ & _ & _ & ->) | (_ & ->)]; [|done].
  cbn. do 4 (split; [done|]).
  split; intros id; rewrite lookup_alter; case_decide; subst;
    by destruct (Characters (db w) !! _).
Qed.

(** X20. A name that no creature has: on a ready world [insert_row_generic]
    returns [False] and the committed database is what it was. *)
Theorem insert_row_generic_new_name_fails
    (srv : Schema) (app : App) (name : string) (gold_given : option Z) (w : World) :
  ready w ->
  (forall id c, Creatures (db w) !! id = Some c ->
                text_eqb srv (creature_name c) name = false) ->
  fst (insert_row_generic srv app (mkData (Some name) gold_given) w) = Returned false /\
  db (snd (insert_row_generic srv app (mkData (Some name) gold_given) w)) = db w.
Proof.
  intros Hr Hnone. rewrite (insert_row_generic_ready _ _ _ _ Hr).
  cbn [data_creature_name data_gold].
  destruct (String.eqb name ""); [done|].
  rewrite creatures_named_none; [done|].
  intros id (c & Hc & Heq)%elem_of_creatures_named.
  by rewrite (Hnone _ _ Hc) in Heq.
Qed.

Lemma insert_row_generic_new_name_fails_witness :
  fst (insert_row_generic sample_schema Steamliteapp_py
         (mkData (Some "Gimli") (Some 100)) (fresh party)) = Returned false /\
  db (snd (insert_row_generic sample_schema Steamliteapp_py
             (mkData (Some "Gimli") (Some 100)) (fresh party))) = db (fresh party).
Proof.
  apply (insert_row_generic_new_name_fails sample_schema Steamliteapp_py "Gimli"
           (Some 100) (fresh party)).
  - repeat split; reflexivity.
  - intros id c. simpl. rewrite !lookup_insert. rewrite lookup_empty.
    repeat case_decide; intros [= <-]; reflexivity.
Defined.

(** ** The non-negative balances across the layer *)

Lemma balances_nonneg_transferred from_id to_id amount d gf gt :
  0 <= amount -> amount <= gf ->
  gold_of d from_id = Some gf -> gold_of d to_id = Some gt ->
  balances_nonneg d -> balances_nonneg (transferred from_id to_id amount d).
Proof.
  intros Hpos Hle Hf Ht Hinv.
  destruct (decide (from_id = to_id)) as [<- | Hne];
    [by rewrite transferred_same_entity|].
  intros id g Hg.
  destruct (decide (id = from_id)) as [-> | Hnf].
  { rewrite (gold_of_transferred_from _ _ _ _ _ Hne Hf) in Hg.
    injection Hg as <-. lia. }
  destruct (decide (id = to_id)) as [-> | Hnt].
  { rewrite (gold_of_transferred_to _ _ _ _ _ Hne Ht) in Hg.
    injection Hg as <-. specialize (Hinv _ _ Ht). lia. }
  unfold gold_of in Hg. rewrite Characters_transferred_other in Hg by assumption.
  exact (Hinv _ _ Hg).
Qed.

(** X21. No call that writes a non-negative gold breaks the invariant: from
    a world whose balances are all non-negative, a call of any of the five
    functions, with an insertion or an update whose gold, if given, is not
    negative and a transfer whose amount is not negative, ends, whatever its
    outcome, in a world whose balances are all non-negative. *)
Theorem calls_keep_balances_nonneg
    (srv : Schema) (app : App) (c : Call) (w : World) :
  writes_nonneg c ->
  balances_nonneg (db w) ->
  balances_nonneg (db (snd (perform srv app c w))).
Proof.
  intros Hc Hinv. destruct c as [|data|pk_val data|pk_val|from_id to_id amount];
    unfold perform; cbn in Hc.
  - pose proof (fetch_all_generic_shape srv app w) as [H _].
    destruct (fetch_all_generic srv app w) as [r w']. cbn in *. by rewrite H.
  - pose proof (insert_row_generic_cases srv app data w) as H.
    destruct (insert_row_generic srv app data w) as [r w']. cbn [snd].
    destruct H as [(_ & name & cid & _ & _ & _ & ->) | (_ & ->)]; [|done].
    intros id g. unfold gold_of; cbn. rewrite lookup_alter. case_decide; subst.
    + destruct (Characters (db w) !! id); cbn; [|done]. intros [= <-].
      destruct (data_gold data) as [g0|] eqn:Hg; cbn; [by apply Hc | lia].
    + apply Hinv.
  - pose proof (update_row_generic_cases app pk_val data w) as H.
    destruct (update_row_generic app pk_val data w) as [r w']. cbn [snd].
    destruct H as [(_ & ->) | (_ & ->)]; [|done].
    intros id g. unfold gold_of. rewrite updated_Characters.
    destruct (data_gold data) as [g0|] eqn:Hg; [|apply Hinv].
    case_bool_decide; [|apply Hinv].
    destruct (Characters (db w) !! id); cbn; [|done]. intros [= <-]. by apply Hc.
  - pose proof (delete_row_generic_cases srv app pk_val w) as H.
    destruct (delete_row_generic srv app pk_val w) as [r w']. cbn [snd].
    destruct H as [(_ & ->) | (_ & ->)]; [|done].
    intros id g. unfold gold_of; cbn. rewrite lookup_delete. case_decide; [done|].
    apply Hinv.
  - destruct (transfer_gold app from_id to_id amount w) as [r w'] eqn:H. cbn [snd].
    destruct (transfer_gold_cases _ _ _ _ _ _ _ H)
      as [[-> _] | (_ & gf & gt & Hf & Ht & Hle & ->)]; [done|].
    by eapply balances_nonneg_transferred.
Qed.

Lemma calls_keep_balances_nonneg_witness :
  balances_nonneg
    (db (snd (perform sample_schema Steamliteapp_py
                (call_update_row 2 (mkData (Some "Zed") (Some 10))) (fresh bank)))).
Proof.
  apply (calls_keep_balances_nonneg sample_schema Steamliteapp_py
           (call_update_row 2 (mkData (Some "Zed") (Some 10))) (fresh bank)).
  - simpl. intros g [= <-]. lia.
  - intros id g. unfold gold_of; simpl.
    rewrite !lookup_insert. repeat case_decide; simpl; intros [= <-]; lia.
Defined.

(** ** Choosing a row *)

Lemma prefix_nil s : String.prefix "" s = true.
Proof. by destruct s. Qed.

Lemma append_cons x (a b : string) : String x a +:+ b = String x (a +:+ b).
Proof. reflexivity. Qed.

Lemma append_assoc (a b c : string) : (a +:+ b) +:+ c = a +:+ (b +:+ c).
Proof. induction a as [|x a IH]; [done|]. by rewrite !append_cons, IH. Qed.

Lemma append_nil_r (a : string) : a +:+ "" = a.
Proof. induction a as [|x a IH]; [done|]. by rewrite append_cons, IH. Qed.

(** Passing an occurrence of the marker. *)
Lemma split_from_marker piece rest :
  split_from "(ID: " 0 piece ("(ID: " +:+ rest)
  = piece :: split_from "(ID: " 0 "" rest.
Proof.
  change ("(ID: " +:+ rest)
    with (String "(" (String "I" (String "D" (String ":" (String " " rest))))).
  cbn. by rewrite prefix_nil.
Qed.

(** Reading on where no occurrence starts. *)
Lemma split_from_scan a piece rest :
  (forall a1 t, a = a1 +:+ t -> t <> "" -> String.prefix "(ID: " (t +:+ rest) = false) ->
  split_from "(ID: " 0 piece (a +:+ rest) = split_from "(ID: " 0 (piece +:+ a) rest.
Proof.
  revert piece. induction a as [|c a IH]; intros piece Hno.
  - by rewrite append_nil_r.
  - rewrite append_cons. cbn [split_from]. rewrite <- append_cons.
    rewrite (Hno "" (String c a) eq_refl) by done.
    rewrite IH.
    + by rewrite append_assoc.
    + intros a1 t -> Ht. by apply (Hno (String c a1) t).
Qed.

Lemma prefix_cons a s1 b s2 :
  String.prefix (String a s1) (String b s2)
  = (if Ascii.ascii_dec a b then String.prefix s1 s2 else false).
Proof. reflexivity. Qed.

Lemma append_marker r :
  "(ID: " +:+ r = String "(" (String "I" (String "D" (String ":" (String " " r)))).
Proof. reflexivity. Qed.

(** One character of a prefix test. *)
Ltac prefix_step H :=
  rewrite prefix_cons in H;
  match type of H with
  | context [Ascii.ascii_dec ?x ?y] =>
      let e := fresh "e" in
      destruct (Ascii.ascii_dec x y) as [e|]; [try discriminate e; try subst | done]
  end.

(** An occurrence cannot start in a text that has none and run into what
    follows, if that is nothing or begins with the marker. *)
Lemma no_occurrence_starts a rest :
  ~ occurs "(ID: " a ->
  rest = "" \/ (exists r, rest = "(ID: " +:+ r) ->
  forall a1 t, a = a1 +:+ t -> t <> "" -> String.prefix "(ID: " (t +:+ rest) = false.
Proof.
  intros Hno Hrest a1 t -> Ht.
  destruct (String.prefix "(ID: " (t +:+ rest)) eqn:Hp; [exfalso | done].
  destruct t as [|c1 [|c2 [|c3 [|c4 [|c5 t]]]]]; [done | | | | |].
  1-4: destruct Hrest as [-> | [r ->]];
       rewrite ?append_marker in Hp; rewrite ?append_cons in Hp;
       change ("" +:+ ?x) with x in Hp;
       repeat prefix_step Hp; discriminate.
  rewrite !append_cons in Hp. repeat prefix_step Hp.
  apply Hno. by exists a1, t.
Qed.

Lemma lacks_app c a b : lacks c (a +:+ b) = lacks c a && lacks c b.
Proof.
  induction a as [|x a IH]; [done|].
  rewrite append_cons. cbn. by rewrite IH, andb_assoc.
Qed.

Lemma lacks_paren_not_occurs s : lacks "(" s = true -> ~ occurs "(ID: " s.
Proof.
  intros H (a & b & ->). rewrite !lacks_app in H. cbn in H.
  by rewrite andb_false_r in H.
Qed.

Lemma lacks_paren_string_of_uint d : lacks "(" (NilEmpty.string_of_uint d) = true.
Proof. induction d; cbn; done. Qed.

Lemma lacks_paren_str_int n : lacks "(" (str_int n) = true.
Proof.
  unfold str_int, NilZero.string_of_int, NilZero.string_of_uint.
  destruct (Z.to_int n) as [d | d]; destruct d; cbn;
    rewrite ?lacks_paren_string_of_uint; done.
Qed.

Lemma drop_last_app_char a c : drop_last (a +:+ String c "") = a.
Proof.
  induction a as [|x a IH]; [done|].
  rewrite append_cons. cbn [drop_last]. rewrite IH.
  destruct a; [done|]. by rewrite append_cons.
Qed.

(** The pieces of a text in which the marker occurs once. *)
Lemma py_split_once a b :
  ~ occurs "(ID: " a -> ~ occurs "(ID: " b ->
  py_split "(ID: " (a +:+ "(ID: " +:+ b) = [a; b].
Proof.
  intros Ha Hb. unfold py_split.
  rewrite split_from_scan by (apply no_occurrence_starts; eauto).
  rewrite split_from_marker. change ("" +:+ a) with a. f_equal.
  rewrite <- (append_nil_r b) at 1.
  rewrite split_from_scan by (apply no_occurrence_starts; eauto).
  done.
Qed.

(** The pieces of a text in which the marker occurs twice. *)
Lemma py_split_twice a b c :
  ~ occurs "(ID: " a -> ~ occurs "(ID: " b -> ~ occurs "(ID: " c ->
  py_split "(ID: " (a +:+ "(ID: " +:+ b +:+ "(ID: " +:+ c) = [a; b; c].
Proof.
  intros Ha Hb Hc. unfold py_split.
  rewrite split_from_scan by (apply no_occurrence_starts; eauto).
  rewrite split_from_marker. change ("" +:+ a) with a. f_equal.
  rewrite split_from_scan by (apply no_occurrence_starts; eauto).
  rewrite split_from_marker. change ("" +:+ b) with b. f_equal.
  rewrite <- (append_nil_r c) at 1.
  rewrite split_from_scan by (apply no_occurrence_starts; eauto).
  done.
Qed.

Lemma display_option_pieces name n :
  display_option name n = (name +:+ " ") +:+ "(ID: " +:+ (str_int n +:+ ")").
Proof. unfold display_option. by rewrite append_assoc. Qed.

Lemma selected_row_unique rows r :
  NoDup (row_id <$> rows) -> r ∈ rows -> selected_row rows (row_id r) = Some r.
Proof.
  unfold selected_row. induction rows as [|x rows IH]; [by intros _ ?%elem_of_nil|].
  rewrite fmap_cons, NoDup_cons. intros [Hx Hnd] [-> | Hin]%elem_of_cons.
  - by rewrite filter_cons_True.
  - rewrite filter_cons_False; [by apply IH|].
    intros Heq. apply Hx. rewrite Heq. by apply list_elem_of_fmap_2.
Qed.

Lemma id_to_display_name_other (rows : list Row) (m : gmap Z string) (k : Z) :
  k ∉ row_id <$> rows ->
  foldl (fun m row => <[row_id row := row_creature_name row]> m) m rows !! k = m !! k.
Proof.
  revert m. induction rows as [|x rows IH]; intros m Hk; [done|].
  rewrite fmap_cons, not_elem_of_cons in Hk. destruct Hk as [Hne Hk].
  cbn. rewrite IH by done. by rewrite lookup_insert_ne.
Qed.

Lemma id_to_display_name_lookup rows r :
  NoDup (row_id <$> rows) -> r ∈ rows ->
  id_to_display_name rows !! row_id r = Some (row_creature_name r).
Proof.
  unfold id_to_display_name. generalize (∅ : gmap Z string) as m.
  induction rows as [|x rows IH]; intros m Hnd Hin; [by apply elem_of_nil in Hin|].
  rewrite fmap_cons, NoDup_cons in Hnd. destruct Hnd as [Hx Hnd].
  apply elem_of_cons in Hin as [-> | Hin]; cbn.
  - rewrite id_to_display_name_other by done. by rewrite lookup_insert_eq.
  - by apply IH.
Qed.

Lemma display_options_lookup rows i r :
  NoDup (row_id <$> rows) -> rows !! i = Some r ->
  display_options rows !! i
  = Some (display_option (row_creature_name r) (row_id r)).
Proof.
  intros Hnd Hi. unfold display_options. rewrite !list_lookup_fmap, Hi. cbn.
  rewrite lookup_total_alt, (id_to_display_name_lookup rows r); [done..|].
  by eapply list_elem_of_lookup_2.
Qed.

(** X22. The selection of Steamlite_allapp.py finds the row it displays:
    when the ids of the rows are distinct, for the row at any position whose
    name followed by a space does not contain "(ID: ", the id read back from
    the entry at that position of the select box is the id of the row, and
    the row looked up with it is that row.  ([int] is Python's conversion,
    which reads back what [str] prints.) *)
Theorem selected_id_round_trip
    (int : string -> option Z) (rows : list Row) (i : nat) (r : Row) :
  NoDup (row_id <$> rows) ->
  rows !! i = Some r ->
  ~ occurs "(ID: " (row_creature_name r +:+ " ") ->
  int (str_int (row_id r)) = Some (row_id r) ->
  exists selected_display_name,
    display_options rows !! i = Some selected_display_name /\
    selected_id int selected_display_name = Some (row_id r) /\
    selected_row rows (row_id r) = Some r.
Proof.
  intros Hnd Hi Hname Hint. eexists. split; [by apply display_options_lookup|].
  split; [|apply selected_row_unique; [done | by eapply list_elem_of_lookup_2]].
  unfold selected_id. rewrite display_option_pieces.
  rewrite py_split_once; [| done |].
  - by rewrite drop_last_app_char.
  - apply lacks_paren_not_occurs. rewrite lacks_app, lacks_paren_str_int. done.
Qed.

Lemma selected_id_round_trip_witness :
  exists selected_display_name,
    display_options [mkRow 1 "Aria" 100; mkRow 2 "Borin" 50] !! 1%nat
    = Some selected_display_name /\
    selected_id decimal_int selected_display_name = Some 2 /\
    selected_row [mkRow 1 "Aria" 100; mkRow 2 "Borin" 50] 2 = Some (mkRow 2 "Borin" 50).
Proof.
  apply (selected_id_round_trip decimal_int
           [mkRow 1 "Aria" 100; mkRow 2 "Borin" 50] 1 (mkRow 2 "Borin" 50)).
  - simpl. apply NoDup_cons. split; [|apply NoDup_singleton].
    intros H. apply list_elem_of_singleton in H. discriminate H.
  - reflexivity.
  - apply lacks_paren_not_occurs. reflexivity.
  - reflexivity.
Defined.

(** X23. A name can carry an id of its own: for a row whose name ends in
    " (ID: m", the id read back from its entry of the select box is [m],
    whatever the id of the row, so that the update or the deletion that
    follows is made for [m]. *)
Theorem selected_id_reads_name
    (int : string -> option Z) (rows : list Row) (i : nat) (r : Row)
    (name : string) (m : Z) :
  NoDup (row_id <$> rows) ->
  rows !! i = Some r ->
  row_creature_name r = name +:+ " (ID: " +:+ str_int m ->
  ~ occurs "(ID: " (name +:+ " ") ->
  int (str_int m) = Some m ->
  exists selected_display_name,
    display_options rows !! i = Some selected_display_name /\
    selected_id int selected_display_name = Some m.
Proof.
  intros Hnd Hi Hr Hname Hint. eexists. split; [by apply display_options_lookup|].
  rewrite Hr. unfold selected_id. rewrite display_option_pieces.
  assert (((name +:+ " (ID: " +:+ str_int m) +:+ " ") +:+ "(ID: "
            +:+ str_int (row_id r) +:+ ")"
          = (name +:+ " ") +:+ "(ID: " +:+ (str_int m +:+ " ") +:+ "(ID: "
              +:+ (str_int (row_id r) +:+ ")")) as ->.
  { rewrite !append_assoc. reflexivity. }
  rewrite py_split_twice; [| done | |].
  - by rewrite drop_last_app_char.
  - apply lacks_paren_not_occurs. rewrite lacks_app, lacks_paren_str_int. done.
  - apply lacks_paren_not_occurs. rewrite lacks_app, lacks_paren_str_int. done.
Qed.

Lemma selected_id_reads_name_witness :
  exists selected_display_name,
    display_options [mkRow 1 "Aria" 100; mkRow 2 "Borin (ID: 1" 50] !! 1%nat
    = Some selected_display_name /\
    selected_id decimal_int selected_display_name = Some 1.
Proof.
  apply (selected_id_reads_name decimal_int
           [mkRow 1 "Aria" 100; mkRow 2 "Borin (ID: 1" 50] 1
           (mkRow 2 "Borin (ID: 1" 50) "Borin" 1).
  - simpl. apply NoDup_cons. split; [|apply NoDup_singleton].
    intros H. apply list_elem_of_singleton in H. discriminate H.
  - reflexivity.
  - reflexivity.
  - apply lacks_paren_not_occurs. reflexivity.
  - reflexivity.
Defined.

(** ** Choosing a row by its entry *)

(** [int] reads back what [str] prints: the numerals of the examples do. *)
Lemma decimal_int_str_int n : decimal_int (str_int n) = Some n.
Proof.
  unfold decimal_int, str_int. rewrite NilZero.isi.
  - cbn. f_equal. apply DecimalZ.of_to.
  - destruct n as [|p|p]; cbn; [done| |done].
    intros [= H]. by apply DecimalPos.Unsigned.to_uint_nonnil in H.
  - destruct n as [|p|p]; cbn; [done|done|].
    intros [= H]. by apply DecimalPos.Unsigned.to_uint_nonnil in H.
Qed.

Lemma str_int_inj a b : str_int a = str_int b -> a = b.
Proof.
  intros H. pose proof (decimal_int_str_int a) as Ha.
  rewrite H, decimal_int_str_int in Ha. by injection Ha.
Qed.

Lemma lacks_space_string_of_uint d : lacks " " (NilEmpty.string_of_uint d) = true.
Proof. induction d; cbn; done. Qed.

Lemma lacks_space_str_int n : lacks " " (str_int n) = true.
Proof.
  unfold str_int, NilZero.string_of_int, NilZero.string_of_uint.
  destruct (Z.to_int n) as [d | d]; destruct d; cbn;
    rewrite ?lacks_space_string_of_uint; done.
Qed.

Lemma list_ascii_of_string_app a b :
  list_ascii_of_string (a +:+ b) = list_ascii_of_string a ++ list_ascii_of_string b.
Proof.
  induction a as [|x a IH]; [done|]. rewrite append_cons. cbn. by rewrite IH.
Qed.

Lemma lacks_not_elem_of c s : lacks c s = true -> c ∉ list_ascii_of_string s.
Proof.
  induction s as [|x s IH]; cbn; [by intros _ ?%elem_of_nil|].
  intros [Hx Hs]%andb_prop. apply not_elem_of_cons. split; [|by apply IH].
  intros ->. by rewrite Ascii.eqb_refl in Hx.
Qed.

(** A text is cut at its last [x] in one way only. *)
Lemma cut_at_last_unique {A} (x : A) (l1 l2 d1 d2 : list A) :
  l1 ++ x :: d1 = l2 ++ x :: d2 -> x ∉ d1 -> x ∉ d2 -> l1 = l2 /\ d1 = d2.
Proof.
  revert l2. induction l1 as [|a l1 IH]; intros [|b l2] Heq H1 H2; cbn in Heq.
  - by injection Heq.
  - injection Heq as -> ->. exfalso. apply H1. apply elem_of_app. right. by left.
  - injection Heq as -> <-. exfalso. apply H2. apply elem_of_app. right. by left.
  - injection Heq as -> Heq. destruct (IH l2 Heq H1 H2) as [-> ->]. done.
Qed.

Lemma display_option_cut n i :
  list_ascii_of_string (display_option n i)
  = (list_ascii_of_string n ++ list_ascii_of_string " (ID:")
      ++ " "%char :: (list_ascii_of_string (str_int i) ++ [")"%char]).
Proof.
  unfold display_option. rewrite !list_ascii_of_string_app.
  rewrite <- app_assoc. reflexivity.
Qed.

(** Two entries are the same only for the same name and id. *)
Lemma display_option_inj n1 i1 n2 i2 :
  display_option n1 i1 = display_option n2 i2 -> n1 = n2 /\ i1 = i2.
Proof.
  intros H. apply (f_equal list_ascii_of_string) in H.
  rewrite !display_option_cut in H.
  apply cut_at_last_unique in H as [Hn Hi].
  - apply app_inv_tail in Hn, Hi.
    apply (f_equal string_of_list_ascii) in Hn, Hi.
    rewrite !string_of_list_ascii_of_string in Hn, Hi.
    split; [done | by apply str_int_inj].
  - rewrite <- (list_ascii_of_string_app _ ")"). apply lacks_not_elem_of.
    by rewrite lacks_app, lacks_space_str_int.
  - rewrite <- (list_ascii_of_string_app _ ")"). apply lacks_not_elem_of.
    by rewrite lacks_app, lacks_space_str_int.
Qed.

Lemma row_options_other (rows : list Row) (m : gmap string Z) (entry : string) :
  (forall row, row ∈ rows ->
     display_option (row_creature_name row) (row_id row) <> entry) ->
  foldl (fun m row =>
           <[display_option (row_creature_name row) (row_id row) := row_id row]> m)
        m rows !! entry = m !! entry.
Proof.
  revert m. induction rows as [|x rows IH]; intros m Hno; [done|].
  cbn. rewrite IH.
  - rewrite lookup_insert_ne; [done|]. apply Hno. by left.
  - intros row Hrow. apply Hno. by right.
Qed.

Lemma row_options_some_row (rows : list Row) (m : gmap string Z) (entry : string) :
  entry ∈ (fun row => display_option (row_creature_name row) (row_id row)) <$> rows ->
  exists row,
    row ∈ rows /\ display_option (row_creature_name row) (row_id row) = entry /\
    foldl (fun m row =>
             <[display_option (row_creature_name row) (row_id row) := row_id row]> m)
          m rows !! entry = Some (row_id row).
Proof.
  revert m. induction rows as [|x rows IH]; intros m Hin; [by apply elem_of_nil in Hin|].
  cbn.
  destruct (decide (entry ∈ (fun row => display_option (row_creature_name row) (row_id row))
                             <$> rows)) as [Hlater | Hlater].
  - destruct (IH (<[display_option (row_creature_name x) (row_id x) := row_id x]> m) Hlater)
      as (row & Hrow & Heq & Hlook).
    exists row. split; [by right | done].
  - rewrite fmap_cons in Hin. apply elem_of_cons in Hin as [-> | Hin]; [|done].
    exists x. split; [by left|]. split; [done|].
    rewrite row_options_other; [by rewrite lookup_insert_eq|].
    intros row Hrow Heq. apply Hlater. apply list_elem_of_fmap. by exists row.
Qed.

(** The id an entry stands for is the id of the row it was made from. *)
Lemma row_options_lookup rows r :
  r ∈ rows ->
  row_options rows !! display_option (row_creature_name r) (row_id r) = Some (row_id r).
Proof.
  intros Hin. unfold row_options.
  destruct (row_options_some_row rows ∅
              (display_option (row_creature_name r) (row_id r)))
    as (row & _ & Heq & ->).
  - apply list_elem_of_fmap. by exists r.
  - by apply display_option_inj in Heq as [_ ->].
Qed.

(** X24. The selection of Steamliteapp.py finds the row it displays, whatever
    the names: when the ids of the rows are distinct, choosing the entry of
    a listed row gives that row, unless its id is 0, which the test
    [if selected_pk_val:] takes for no choice at all. *)
Theorem current_record_details_round_trip (rows : list Row) (r : Row) :
  NoDup (row_id <$> rows) ->
  r ∈ rows ->
  current_record_details rows
    (Some (display_option (row_creature_name r) (row_id r)))
  = (if bool_decide (row_id r = 0) then None else Some r).
Proof.
  intros Hnd Hin. unfold current_record_details.
  rewrite (row_options_lookup rows r Hin). cbn.
  case_bool_decide as Hz.
  - by rewrite Hz.
  - apply Z.eqb_neq in Hz. rewrite Hz. cbn. by apply selected_row_unique.
Qed.

Lemma current_record_details_round_trip_witness :
  current_record_details [mkRow 1 "Aria (ID: 2" 100; mkRow 2 "Borin" 50]
    (Some (display_option "Aria (ID: 2" 1))
  = (if bool_decide (1 = 0) then None else Some (mkRow 1 "Aria (ID: 2" 100)).
Proof.
  apply (current_record_details_round_trip
           [mkRow 1 "Aria (ID: 2" 100; mkRow 2 "Borin" 50] (mkRow 1 "Aria (ID: 2" 100)).
  - simpl. apply NoDup_cons. split; [|apply NoDup_singleton].
    intros H. apply list_elem_of_singleton in H. discriminate H.
  - apply elem_of_cons. left. reflexivity.
Defined.
